(** * Verification of the NutriGeneEngine risk scorer

    Shallow embedding of [src/nutrigeneengine/risk_scorer.py] ([RiskScorer]).

    Modelling choices:
    - Python floats (weights, points, scores, thresholds) are exact rationals [Q];
      [round(x, n)] is rounding of the exact value to [n] decimals, ties to even.
    - JSON dicts read with [.get(k, default)] are records of [option] fields;
      a dict iterated in order or updated with [d[k] = v] is an association list
      with Python's insertion-order semantics ([py_setitem], [py_update]).
    - Genotype strings are ASCII strings; [len] is [String.length].
    - The f-string detail lines are kept as a structured [detail] value;
      [render_detail] gives the text of the lines that contain no numbers.
    - The stateful part (objects shared with the caller, allocation of the
      result objects) is modelled in the module [Heap] at the end. *)

From Stdlib Require Import Arith QArith Qround String Ascii List Bool Lia Lqa.
From Stdlib Require PrimFloat FloatOps SpecFloat Uint63.
Import ListNotations.
Open Scope string_scope.

(** ** Data model *)

(** [variant["effect"]]: only [direction] is read. *)
Record effect_t := Effect { direction : option string }.

(** [variant["scoring"]]. *)
Record scoring_t := Scoring {
  default_weight : option Q;
  genotype_points : option (list (string * Q))
}.

(** A variant of a trait: [{rsid, weight?, effect?, scoring?}]. *)
Record variant := Variant {
  rsid : option string;
  weight : option Q;
  effect : option effect_t;
  scoring : option scoring_t
}.

(** A trait definition (flat trait, subtrait, or direct hierarchical trait). *)
Record trait_info := TraitInfo {
  ti_name : option string;
  domain : option string;
  variants : option (list variant)
}.

(** A trait node of a hierarchical group: a trait definition that may also
    carry [subtraits]. *)
Record trait_node := TraitNode {
  node_info : trait_info;
  subtraits : option (list trait_info)
}.

Record group := Group {
  group_name : option string;
  group_traits : list trait_node
}.

(** The schema: [taxonomy] present ([Some top_groups]) or the flat
    [traits] mapping (trait name -> definition, in dict order). *)
Record schema := Schema {
  taxonomy : option (list group);
  traits : list (string * trait_info)
}.

(** [Dict[str, str]]: rsid -> raw genotype. *)
Definition genotype_map := list (string * string).

(** The per-variant entries of [variant_details], one constructor per f-string. *)
Inductive detail :=
| DNeutral (rs : option string)
    (* f"{rsid}: Neutral (phenotypic only, not scored)" *)
| DMissing (rs : option string)
    (* f"{rsid}: Missing" *)
| DPoints (rs : option string) (diploid : string) (allele_count : nat)
          (points : Q) (dir : string) (w : Q) (trait_score : Q)
    (* f"{rsid} ({diploid}): {allele_count} alleles -> {points} points ([{DIR}]) x {weight}w = {trait_score}" *)
| DLegacy (rs : option string) (diploid : string) (allele_count : nat)
          (dir : string) (w : Q) (trait_score : Q).
    (* f"{rsid} ({diploid}): {allele_count} alleles ([{DIR}]) x {weight} = {trait_score}" *)

(** The result dict of one trait. [group_name_field] is the key added by
    [_process_group] (absent for a flat schema). *)
Record trait_result := TraitResult {
  tr_name : string;
  normalized_score : Q;
  score : Q;
  max_possible_score : Q;
  percentage : Q;
  classification : string;
  tr_domain : string;
  details : list detail;
  group_name_field : option string
}.

(** The scorer's attributes. *)
Record scorer := Scorer {
  sc_schema : schema;
  thresholds : Q * Q;
  language : string
}.

Definition default_thresholds : Q * Q := (33 # 1, 66 # 1).

(** ** Python helpers *)

Definition get_default {A} (d : A) (o : option A) : A :=
  match o with Some x => x | None => d end.

(** [d.get(k)] on a dict with string keys. *)
Fixpoint dict_get {A} (kvs : list (string * A)) (k : string) : option A :=
  match kvs with
  | [] => None
  | (k', v) :: t => if String.eqb k' k then Some v else dict_get t k
  end.

(** [d[k] = v]: overwrite in place when [k] is present, else append. *)
Fixpoint py_setitem {A} (kvs : list (string * A)) (k : string) (v : A)
  : list (string * A) :=
  match kvs with
  | [] => [(k, v)]
  | (k', v') :: t =>
      if String.eqb k' k then (k, v) :: t else (k', v') :: py_setitem t k v
  end.

(** [d.update(other)]. *)
Definition py_update {A} (kvs other : list (string * A)) : list (string * A) :=
  fold_left (fun acc kv => py_setitem acc (fst kv) (snd kv)) other kvs.

(** [genotype_data.get(rsid, None)]; a [None] rsid is never a key. *)
Definition genotype_get (g : genotype_map) (rs : option string) : option string :=
  match rs with Some k => dict_get g k | None => None end.

(** [str(n)] for a natural number. *)
Fixpoint digits_rev (fuel n : nat) : string :=
  match fuel with
  | O => ""
  | S f =>
      let d := String (ascii_of_nat (48 + Nat.modulo n 10)) "" in
      if Nat.ltb n 10 then d else digits_rev f (Nat.div n 10) ++ d
  end.
Definition py_str_nat (n : nat) : string := digits_rev (S n) n.

(** [x < y] on floats. *)
Definition qltb (x y : Q) : bool := negb (Qle_bool y x).

(** Round half to even of a rational to an integer. *)
Definition round_half_even (x : Q) : Z :=
  let a := Qnum x in
  let b := Zpos (Qden x) in
  let fl := Z.div a b in
  let r := Z.modulo a b in
  match Z.compare (2 * r)%Z b with
  | Lt => fl
  | Gt => (fl + 1)%Z
  | Eq => if Z.even fl then fl else (fl + 1)%Z
  end.

(** [round(x, nd)]. *)
Definition py_round (x : Q) (nd : nat) : Q :=
  let p := Pos.of_nat (Nat.pow 10 nd) in
  Qred (round_half_even (x * (Zpos p # 1)) # p).

(** [str.upper()] on ASCII. *)
Definition ascii_upper (c : ascii) : ascii :=
  let n := nat_of_ascii c in
  if Nat.leb 97 n && Nat.leb n 122 then ascii_of_nat (Nat.sub n 32) else c.
Fixpoint str_upper (s : string) : string :=
  match s with
  | EmptyString => EmptyString
  | String c t => String (ascii_upper c) (str_upper t)
  end.

(** ** [RiskScorer] *)

Open Scope list_scope.

(** [_get_allele_count]: 0 unless two characters; 2 when both are equal,
    else 1. *)
Definition get_allele_count (diploid_genotype : string) : nat :=
  if negb (Nat.eqb (String.length diploid_genotype) 2) then 0
  else
    match String.get 0 diploid_genotype, String.get 1 diploid_genotype with
    | Some a, Some b => if Ascii.eqb a b then 2 else 1
    | _, _ => 1
    end.

(** [effect = variant.get("effect", {}); effect.get("direction", "risk_up")]. *)
Definition direction_of (v : variant) : string :=
  match effect v with
  | Some e => get_default "risk_up" (direction e)
  | None => "risk_up"
  end.

(** ['scoring' in variant and 'genotype_points' in variant['scoring']]:
    the weight [scoring.get('default_weight', 1.0)] and the point map. *)
Definition point_mode (v : variant) : option (Q * list (string * Q)) :=
  match scoring v with
  | Some sc =>
      match genotype_points sc with
      | Some pm => Some (get_default 1 (default_weight sc), pm)
      | None => None
      end
  | None => None
  end.

(** [not diploid or len(diploid) != 2]. *)
Definition diploid_missing (o : option string) : bool :=
  match o with
  | None => true
  | Some d => String.eqb d "" || negb (Nat.eqb (String.length d) 2)
  end.

(** [points in [0, 1, 2]]. *)
Definition in_012 (p : Q) : bool :=
  Qeq_bool p 0 || Qeq_bool p 1 || Qeq_bool p 2.

(** Per-direction contribution in point-map mode. *)
Definition points_trait_score (dir : string) (points w : Q) : Q :=
  if String.eqb dir "risk_up" then points * w
  else if String.eqb dir "risk_down" then
    (if in_012 points then 2 - points else 0) * w
  else if String.eqb dir "contextual" then points * w
  else 0.

(** Per-direction contribution in legacy mode. *)
Definition legacy_trait_score (dir : string) (allele_count : nat) (w : Q) : Q :=
  if String.eqb dir "risk_up" then inject_Z (Z.of_nat allele_count) * w
  else if String.eqb dir "risk_down" then (2 - inject_Z (Z.of_nat allele_count)) * w
  else if String.eqb dir "contextual" then inject_Z (Z.of_nat allele_count) * w
  else 0.

(** One iteration of the [for variant in variants] loop of
    [_calculate_trait_score]; the accumulator is
    [(score, max_possible_with_data, variant_details)]. *)
Definition variant_step (genotype_data : genotype_map)
    (acc : Q * Q * list detail) (v : variant) : Q * Q * list detail :=
  let '(sc, mx, ds) := acc in
  let w0 := get_default 1 (weight v) in
  let dir := direction_of v in
  if String.eqb dir "neutral" then (sc, mx, ds ++ [DNeutral (rsid v)])
  else
    match point_mode v with
    | Some (w, point_map) =>
        let diploid := genotype_get genotype_data (rsid v) in
        match diploid with
        | Some d =>
            if diploid_missing diploid then (sc, mx, ds ++ [DMissing (rsid v)])
            else
              let allele_count := get_allele_count d in
              let points := get_default 0 (dict_get point_map (py_str_nat allele_count)) in
              let ts := points_trait_score dir points w in
              (sc + ts, mx + 2 * w,
               ds ++ [DPoints (rsid v) d allele_count points dir w ts])
        | None => (sc, mx, ds ++ [DMissing (rsid v)])
        end
    | None =>
        let diploid := genotype_get genotype_data (rsid v) in
        match diploid with
        | Some d =>
            if diploid_missing diploid then (sc, mx, ds)
            else
              let allele_count := get_allele_count d in
              let ts := legacy_trait_score dir allele_count w0 in
              (sc + ts, mx + 2 * w0,
               ds ++ [DLegacy (rsid v) d allele_count dir w0 ts])
        | None => (sc, mx, ds)
        end
    end.

(** The variant loop. *)
Definition score_variants (genotype_data : genotype_map) (vs : list variant)
  : Q * Q * list detail :=
  fold_left (variant_step genotype_data) vs (0, 0, []).

(** [RISK_LABELS.get(language, RISK_LABELS['en'])]. *)
Inductive risk_level := RLow | RMedium | RHigh.

Definition risk_label (lang : string) (lvl : risk_level) : string :=
  if String.eqb lang "tr" then
    match lvl with RLow => "DÜŞÜK" | RMedium => "ORTA" | RHigh => "YÜKSEK" end
  else
    match lvl with RLow => "LOW" | RMedium => "MEDIUM" | RHigh => "HIGH" end.

(** [_classify_risk]. *)
Definition classify_level (th : Q * Q) (pct : Q) : risk_level :=
  if qltb pct (fst th) then RLow
  else if qltb pct (snd th) then RMedium
  else RHigh.

Definition classify_risk (th : Q * Q) (lang : string) (pct : Q) : string :=
  risk_label lang (classify_level th pct).

(** The unrounded percentage ("Smart normalization"). *)
Definition raw_percentage (sc mx : Q) : Q :=
  if qltb 0 mx then (sc / mx) * 100 else 0.

(** [_calculate_trait_score]. *)
Definition calculate_trait_score (th : Q * Q) (lang : string)
    (trait_name : string) (ti : trait_info) (genotype_data : genotype_map)
  : trait_result :=
  let '(sc, mx, ds) := score_variants genotype_data (get_default [] (variants ti)) in
  let pct := raw_percentage sc mx in
  {| tr_name := trait_name;
     normalized_score := py_round pct 1;
     score := sc;
     max_possible_score := mx;
     percentage := py_round pct 2;
     classification := classify_risk th lang pct;
     tr_domain := get_default "Unknown" (domain ti);
     details := ds;
     group_name_field := None |}.

(** [result['group_name'] = group_name]. *)
Definition set_group_name (r : trait_result) (g : string) : trait_result :=
  {| tr_name := tr_name r; normalized_score := normalized_score r;
     score := score r; max_possible_score := max_possible_score r;
     percentage := percentage r; classification := classification r;
     tr_domain := tr_domain r; details := details r;
     group_name_field := Some g |}.

(** [results[subtrait['name']] = result] after [result['group_name'] = ...];
    [None] is the [KeyError] of a trait without a name. *)
Definition add_group_trait (th : Q * Q) (lang gname : string)
    (genotype_data : genotype_map) (res : option (list (string * trait_result)))
    (ti : trait_info) : option (list (string * trait_result)) :=
  match res, ti_name ti with
  | Some r, Some n =>
      Some (py_setitem r n
              (set_group_name (calculate_trait_score th lang n ti genotype_data) gname))
  | _, _ => None
  end.

(** One trait node of [_process_group]: subtraits first, else a direct
    trait with [variants], else nothing. *)
Definition process_node (th : Q * Q) (lang gname : string)
    (genotype_data : genotype_map) (res : option (list (string * trait_result)))
    (node : trait_node) : option (list (string * trait_result)) :=
  match subtraits node with
  | Some subs => fold_left (add_group_trait th lang gname genotype_data) subs res
  | None =>
      match variants (node_info node) with
      | Some _ => add_group_trait th lang gname genotype_data res (node_info node)
      | None => res
      end
  end.

(** [_process_group]. *)
Definition process_group (th : Q * Q) (lang : string) (g : group)
    (genotype_data : genotype_map) : option (list (string * trait_result)) :=
  fold_left (process_node th lang (get_default "Unknown" (group_name g)) genotype_data)
    (group_traits g) (Some []).

(** [calculate_score]. *)
Definition calculate_score (self : scorer) (genotype_data : genotype_map)
  : option (list (string * trait_result)) :=
  let th := thresholds self in
  let lang := language self in
  match taxonomy (sc_schema self) with
  | Some top_groups =>
      fold_left
        (fun acc g =>
           match acc, process_group th lang g genotype_data with
           | Some r, Some gr => Some (py_update r gr)
           | _, _ => None
           end)
        top_groups (Some [])
  | None =>
      Some (fold_left
              (fun res nti =>
                 py_setitem res (fst nti)
                   (calculate_trait_score th lang (fst nti) (snd nti) genotype_data))
              (traits (sc_schema self)) [])
  end.

(** The trait definitions [calculate_score] scores, in traversal order. *)
Definition node_trait_infos (node : trait_node) : list trait_info :=
  match subtraits node with
  | Some subs => subs
  | None =>
      match variants (node_info node) with
      | Some _ => [node_info node]
      | None => []
      end
  end.

Definition schema_trait_infos (s : schema) : list trait_info :=
  match taxonomy s with
  | Some top_groups =>
      flat_map (fun g => flat_map node_trait_infos (group_traits g)) top_groups
  | None => map snd (traits s)
  end.

(** ** Text of the detail lines *)
Section Render.
(** [str()] of a Python number. *)
Variable show_num : Q -> string.

Definition show_rsid (rs : option string) : string :=
  match rs with Some s => s | None => "None" end.

Definition render_detail (d : detail) : string :=
  match d with
  | DNeutral rs => String.append (show_rsid rs) ": Neutral (phenotypic only, not scored)"
  | DMissing rs => String.append (show_rsid rs) ": Missing"
  | DPoints rs dip ac pts dir w ts =>
      String.concat "" [show_rsid rs; " ("; dip; "): "; py_str_nat ac;
        " alleles → "; show_num pts; " points (["; str_upper dir; "]) × ";
        show_num w; "w = "; show_num ts]
  | DLegacy rs dip ac dir w ts =>
      String.concat "" [show_rsid rs; " ("; dip; "): "; py_str_nat ac;
        " alleles (["; str_upper dir; "]) × "; show_num w; " = "; show_num ts]
  end.
End Render.

(** ** Setters of [RiskScorer] *)

(** [set_thresholds]. *)
Definition set_thresholds (self : scorer) (low_threshold high_threshold : Q) : scorer :=
  {| sc_schema := sc_schema self; thresholds := (low_threshold, high_threshold);
     language := language self |}.

(** The keys of [RISK_LABELS]. *)
Definition risk_label_languages : list string := ["en"; "tr"].

(** [set_language]: [if language in self.RISK_LABELS: self.language = language]. *)
Definition set_language (self : scorer) (lang : string) : scorer :=
  if existsb (String.eqb lang) risk_label_languages
  then {| sc_schema := sc_schema self; thresholds := thresholds self; language := lang |}
  else self.

(** A sequence of setter calls on one scorer. *)
Inductive setter_call :=
| CallSetThresholds (low_threshold high_threshold : Q)
| CallSetLanguage (lang : string).

Definition run_setter (self : scorer) (c : setter_call) : scorer :=
  match c with
  | CallSetThresholds lo hi => set_thresholds self lo hi
  | CallSetLanguage l => set_language self l
  end.

Definition run_setters (self : scorer) (cs : list setter_call) : scorer :=
  fold_left run_setter cs self.

(** ** [create_comprehensive_json] of [scripts/generate_full_report.py] *)

(** [filtered_results]: drops the traits named ['Informational'] and
    ['Bilgilendirici']. *)
Definition informational_names : list string := ["Informational"; "Bilgilendirici"].

Definition filter_informational (results : list (string * trait_result))
  : list (string * trait_result) :=
  filter (fun kv => negb (existsb (String.eqb (fst kv)) informational_names)) results.

(** [sum(1 for r in filtered_results.values() if cond(r))]. *)
Definition count_if (p : trait_result -> bool) (rs : list (string * trait_result)) : nat :=
  length (filter (fun kv => p (snd kv)) rs).

(** The ['summary'] entry of the report. *)
Record report_summary := ReportSummary {
  total_traits : nat;
  low_risk_count : nat;
  medium_risk_count : nat;
  high_risk_count : nat
}.

Definition summary_of (results : list (string * trait_result)) : report_summary :=
  let fr := filter_informational results in
  {| total_traits := length fr;
     low_risk_count := count_if (fun r => Qle_bool (percentage r) 33) fr;
     medium_risk_count :=
       count_if (fun r => qltb 33 (percentage r) && Qle_bool (percentage r) 66) fr;
     high_risk_count := count_if (fun r => qltb 66 (percentage r)) fr |}.

(** [result.get('group_name', 'Unknown')]. *)
Definition group_of (r : trait_result) : string := get_default "Unknown" (group_name_field r).

(** One iteration of the loop building [groups_data]:
    [if group_name not in groups_data: groups_data[group_name] = []] then
    [groups_data[group_name].append((trait_name, result))]. *)
Definition add_to_group (gd : list (string * list (string * trait_result)))
    (kv : string * trait_result) : list (string * list (string * trait_result)) :=
  let gn := group_of (snd kv) in
  let gd1 := match dict_get gd gn with
             | Some _ => gd
             | None => py_setitem gd gn []
             end in
  py_setitem gd1 gn (get_default [] (dict_get gd1 gn) ++ [kv]).

Definition groups_data (results : list (string * trait_result))
  : list (string * list (string * trait_result)) :=
  fold_left add_to_group (filter_informational results) [].

(** ** Consumers of the results in [utils.py], [visualizer.py] and
    [schema_handler.py] *)

(** [get_high_risk_traits]: [result.get("percentage", 0) >= threshold]. *)
Definition get_high_risk_traits (results : list (string * trait_result)) (threshold : Q)
  : list (string * trait_result) :=
  filter (fun kv => Qle_bool threshold (percentage (snd kv))) results.

(** [filter_results_by_domain]: [result.get("domain") == domain]. *)
Definition filter_results_by_domain (results : list (string * trait_result)) (d : string)
  : list (string * trait_result) :=
  filter (fun kv => String.eqb (tr_domain (snd kv)) d) results.

(** [Visualizer._get_color_for_percentage]. *)
Definition get_color_for_percentage (p : Q) : string :=
  if qltb p 33 then "#2ecc71"
  else if qltb p 66 then "#f39c12"
  else "#e74c3c".

(** [SchemaHandler.get_traits_by_domain]: [trait_info.get("domain") == domain]. *)
Definition get_traits_by_domain (s : schema) (d : string) : list (string * trait_info) :=
  fold_left (fun res nt => match domain (snd nt) with
                           | Some m => if String.eqb m d then py_setitem res (fst nt) (snd nt)
                                       else res
                           | None => res
                           end)
    (traits s) [].

(** ** The percentage in double precision *)

(** Lines 219-231 of [_calculate_trait_score] on the float values of
    [score] and [max_possible_with_data], with Rocq's primitive IEEE-754
    binary64 numbers. *)
Module FloatPercent.
Import PrimFloat.

(** The exact value [m * 2^e] of a finite double's magnitude. *)
Definition sf_magnitude (m : positive) (e : Z) : Q :=
  match e with
  | Zneg p => Zpos m # Pos.pow 2 p
  | _ => (Zpos m * 2 ^ e)%Z # 1
  end.

(** Python's [round(x, nd)] on a float: the exact value of [x] rounded to
    [nd] decimals, ties to even, then the double nearest to that decimal
    (the quotient of two integers, both exact below 2^53, correctly rounded),
    with the sign of [x]; zeros, infinities and NaN are returned unchanged. *)
Definition py_round_f (x : float) (nd : nat) : float :=
  match FloatOps.Prim2SF x with
  | SpecFloat.S754_finite s m e =>
      let p := Pos.of_nat (Nat.pow 10 nd) in
      let n := round_half_even (sf_magnitude m e * (Zpos p # 1)) in
      let r := (of_uint63 (Uint63.of_Z n) / of_uint63 (Uint63.of_Z (Zpos p)))%float in
      if s then (- r)%float else r
  | _ => x
  end.

(** [if max_possible_with_data > 0: percentage = (score / max_possible_with_data) * 100]
    [else: percentage = 0.0]. *)
Definition percentage_float (score mx : float) : float :=
  if (0 <? mx)%float then ((score / mx) * 100)%float else 0%float.

(** The returned ["normalized_score"] and ["percentage"]. *)
Definition normalized_score_f (score mx : float) : float :=
  py_round_f (percentage_float score mx) 1.

Definition percentage_f (score mx : float) : float :=
  py_round_f (percentage_float score mx) 2.

(** The formula [round(100 × score / max_possible, 2)] of the
    specification, evaluated left to right in double precision. *)
Definition spec_percentage_f (score mx : float) : float :=
  py_round_f ((100 * score) / mx)%float 2.
End FloatPercent.

(** ** Notions used to state properties *)

(** The same genotype with its two alleles written in the other order
    (["AG"] as ["GA"]); other strings are left as they are. *)
Definition reverse_alleles (d : string) : string :=
  match d with
  | String a (String b EmptyString) => String b (String a EmptyString)
  | _ => d
  end.

Definition swap_genotypes (g : genotype_map) : genotype_map :=
  map (fun kv => (fst kv, reverse_alleles (snd kv))) g.

(** A variant skipped with no detail line: not neutral, no genotype point
    map, and no usable genotype. *)
Definition silent_variant (g : genotype_map) (v : variant) : bool :=
  negb (String.eqb (direction_of v) "neutral") &&
  match point_mode v with None => true | Some _ => false end &&
  diploid_missing (genotype_get g (rsid v)).

(** The variants of every trait definition [calculate_score] scores. *)
Definition schema_variants (s : schema) : list variant :=
  flat_map (fun ti => get_default [] (variants ti)) (schema_trait_infos s).

(** The number of entries over all group lists of [groups_data]. *)
Definition bucket_total (gd : list (string * list (string * trait_result))) : nat :=
  list_sum (map (fun b => length (snd b)) gd).

(** A group list whose entries all carry that group's name. *)
Definition bucket_ok (b : string * list (string * trait_result)) : Prop :=
  Forall (fun kv => group_of (snd kv) = fst b) (snd b).

(** The trait definitions a taxonomy scores, each with the name of its
    group ([group.get('name', 'Unknown')]), in traversal order. *)
Definition taxonomy_entries (top_groups : list group) : list (string * trait_info) :=
  flat_map (fun grp => map (fun ti => (get_default "Unknown" (group_name grp), ti))
                          (flat_map node_trait_infos (group_traits grp)))
    top_groups.

(** The last entry of a list whose trait definition is named [n]. *)
Definition last_named (n : string) (es : list (string * trait_info))
  : option (string * trait_info) :=
  fold_left (fun acc e => match ti_name (snd e) with
                          | Some m => if String.eqb m n then Some e else acc
                          | None => acc
                          end) es None.

(** The result stored for an entry of [taxonomy_entries] under the name [n]. *)
Definition entry_result (th : Q * Q) (lang : string) (g : genotype_map) (n : string)
    (e : string * trait_info) : trait_result :=
  set_group_name (calculate_trait_score th lang n (snd e) g) (fst e).

(** ** Sample inputs *)

Definition one_variant_scorer (dir : string) : scorer :=
  {| sc_schema :=
       {| taxonomy := None;
          traits := [("T", {| ti_name := None; domain := None;
                              variants := Some [{| rsid := Some "rs1";
                                                   weight := Some (2 # 1);
                                                   effect := Some (Effect (Some dir));
                                                   scoring := None |}] |})] |};
     thresholds := default_thresholds;
     language := "en" |}.

Definition one_trait (dir : string) (geno : genotype_map) : option trait_result :=
  match calculate_score (one_variant_scorer dir) geno with
  | Some [(_, r)] => Some r
  | _ => None
  end.

(** Projections of the loop accumulator. *)
Definition acc_score (a : Q * Q * list detail) : Q := fst (fst a).
Definition acc_max (a : Q * Q * list detail) : Q := snd (fst a).
Definition acc_details (a : Q * Q * list detail) : list detail := snd a.

(** The weight a variant is scored with. *)
Definition used_weight (v : variant) : Q :=
  match point_mode v with
  | Some (w, _) => w
  | None => get_default 1 (weight v)
  end.

(** ** Sample inputs *)

Definition pm_variant (dir : string) : variant :=
  {| rsid := Some "rs1"; weight := Some (5 # 1);
     effect := Some (Effect (Some dir));
     scoring := Some {| default_weight := Some (3 # 2);
                        genotype_points := Some [("0", 0); ("1", 1); ("2", 3 # 1)] |} |}.

Definition neutral_variant : variant :=
  {| rsid := Some "rs9"; weight := Some (2 # 1);
     effect := Some (Effect (Some "neutral")); scoring := None |}.

Definition odd_variant : variant :=
  {| rsid := Some "rs7"; weight := Some (1 # 1);
     effect := Some (Effect (Some "protective")); scoring := None |}.

Definition up_variant : variant :=
  {| rsid := Some "rs1"; weight := Some (1 # 1);
     effect := None; scoring := None |}.

(** The spec's reading of a zygosity tag as an allele count
    ("wt" -> 0, "het" -> 1, "hom" -> 2), used to state claim C1. *)
Definition spec_zygosity_allele_count (tag : string) : option nat :=
  if String.eqb tag "wt" then Some 0%nat
  else if String.eqb tag "het" then Some 1%nat
  else if String.eqb tag "hom" then Some 2%nat
  else None.

(** Point values in [[0, 2]] and a non-negative weight. *)
Definition well_scaled (v : variant) : Prop :=
  match point_mode v with
  | Some (w, pm) => 0 <= w /\ Forall (fun kv => 0 <= snd kv <= 2) pm
  | None => 0 <= get_default 1 (weight v)
  end.

Definition opt_all (P : trait_result -> Prop) (o : option (list (string * trait_result)))
  : Prop :=
  match o with Some l => Forall (fun kv => P (snd kv)) l | None => True end.

(** A scorer with one point-map variant whose homozygous points are 3. *)
Definition pm_scorer : scorer :=
  {| sc_schema :=
       {| taxonomy := None;
          traits := [("T", {| ti_name := None; domain := None;
                              variants := Some [pm_variant "risk_up"] |})] |};
     thresholds := default_thresholds;
     language := "en" |}.

(** A flat schema with two traits. *)
Definition two_trait_scorer : scorer :=
  {| sc_schema :=
       {| taxonomy := None;
          traits := [("A", {| ti_name := None; domain := Some "Nutrition";
                              variants := Some [up_variant] |});
                     ("B", {| ti_name := None; domain := None;
                              variants := Some [odd_variant; neutral_variant] |})] |};
     thresholds := default_thresholds;
     language := "en" |}.

(** A taxonomy with a trait carrying subtraits and a direct trait. *)
Definition tax_scorer : scorer :=
  {| sc_schema :=
       {| taxonomy := Some
            [{| group_name := Some "Metabolism";
                group_traits :=
                  [{| node_info := {| ti_name := Some "Parent"; domain := None;
                                      variants := Some [up_variant] |};
                      subtraits := Some [{| ti_name := Some "Sub1"; domain := None;
                                            variants := Some [up_variant] |};
                                         {| ti_name := Some "Sub2"; domain := None;
                                            variants := Some [pm_variant "risk_down"] |}] |};
                   {| node_info := {| ti_name := Some "Direct"; domain := None;
                                      variants := Some [odd_variant] |};
                      subtraits := None |}] |};
             {| group_name := None;
                group_traits :=
                  [{| node_info := {| ti_name := Some "Sub1"; domain := None;
                                      variants := Some [neutral_variant] |};
                      subtraits := None |}] |}];
          traits := [] |};
     thresholds := default_thresholds;
     language := "tr" |}.

(** A trait whose score is 23 of a maximum of 160: a homozygous risk_up
    variant of weight 11.5 and a homozygous risk_down variant of weight 68.5. *)
Definition rounding_scorer : scorer :=
  {| sc_schema :=
       {| taxonomy := None;
          traits := [("T", {| ti_name := None; domain := None;
                              variants := Some
                                [{| rsid := Some "rs1"; weight := Some (23 # 2);
                                    effect := None; scoring := None |};
                                 {| rsid := Some "rs2"; weight := Some (137 # 2);
                                    effect := Some (Effect (Some "risk_down"));
                                    scoring := None |}] |})] |};
     thresholds := default_thresholds;
     language := "en" |}.

Definition rounding_genotypes : genotype_map := [("rs1", "AA"); ("rs2", "GG")].

(** ** The object store: what [calculate_score] reads and allocates *)

Module Heap.

Definition loc := nat.

(** Python values held in dicts and lists. *)
Inductive pyval :=
| VStr (s : string)
| VNum (q : Q)
| VRef (l : loc)
| VDetail (d : detail).

(** Heap objects: dicts, lists, and the caller's parsed schema (a JSON
    tree that the scorer only reads, kept as one object). *)
Inductive obj :=
| ODict (kvs : list (string * pyval))
| OList (xs : list pyval)
| OSchema (s : schema).

Record store := Store { next : nat; mem : loc -> option obj }.

(** Nothing is allocated at or above [next]. *)
Definition store_wf (st : store) : Prop :=
  forall x, (next st <= x)%nat -> mem st x = None.

Definition upd (m : loc -> option obj) (l : loc) (o : obj) : loc -> option obj :=
  fun x => if Nat.eqb x l then Some o else m x.

(** A state and error monad over the store ([None]: an exception). *)
Definition M (A : Type) := store -> option (A * store).

Definition ret {A} (a : A) : M A := fun st => Some (a, st).
Definition bind {A B} (m : M A) (k : A -> M B) : M B :=
  fun st => match m st with Some (a, st') => k a st' | None => None end.
Definition fail {A} : M A := fun _ => None.

Notation "x <- m ;; k" := (bind m (fun x => k))
  (at level 61, m at next level, right associativity).

(** [{}] / [[]]: a new object. *)
Definition alloc (o : obj) : M loc :=
  fun st => Some (next st, {| next := S (next st); mem := upd (mem st) (next st) o |}).

Definition load (l : loc) : M obj :=
  fun st => match mem st l with Some o => Some (o, st) | None => None end.

Definition store_obj (l : loc) (o : obj) : M unit :=
  fun st => match mem st l with
            | Some _ => Some (tt, {| next := next st; mem := upd (mem st) l o |})
            | None => None
            end.

(** [d[k] = v]. *)
Definition dict_setitem (l : loc) (k : string) (v : pyval) : M unit :=
  o <- load l ;;
  match o with
  | ODict kvs => store_obj l (ODict (py_setitem kvs k v))
  | _ => fail
  end.

(** [d.update(d2)]. *)
Definition dict_update (l l2 : loc) : M unit :=
  o2 <- load l2 ;;
  match o2 with
  | ODict kvs2 =>
      o <- load l ;;
      match o with
      | ODict kvs => store_obj l (ODict (py_update kvs kvs2))
      | _ => fail
      end
  | _ => fail
  end.

(** [xs.append(v)]. *)
Definition list_append (l : loc) (v : pyval) : M unit :=
  o <- load l ;;
  match o with
  | OList xs => store_obj l (OList (xs ++ [v]))
  | _ => fail
  end.

(** [for x in xs: body(x)]. *)
Fixpoint iterM {B} (body : B -> M unit) (xs : list B) : M unit :=
  match xs with
  | [] => ret tt
  | x :: t => _ <- body x ;; iterM body t
  end.

(** The result dict of one trait. *)
Definition result_fields (tr : trait_result) (dl : loc) : list (string * pyval) :=
  [("name", VStr (tr_name tr));
   ("normalized_score", VNum (normalized_score tr));
   ("score", VNum (score tr));
   ("max_possible_score", VNum (max_possible_score tr));
   ("percentage", VNum (percentage tr));
   ("classification", VStr (classification tr));
   ("domain", VStr (tr_domain tr));
   ("details", VRef dl)] ++
  match group_name_field tr with
  | Some gn => [("group_name", VStr gn)]
  | None => []
  end.

(** [_calculate_trait_score]: the scores are computed by the pure
    [calculate_trait_score]; the fresh [variant_details] list receives the
    detail lines one [append] at a time and the result dict is built last. *)
Definition trait_h (th : Q * Q) (lang name : string) (ti : trait_info)
    (genotype_data : genotype_map) : M loc :=
  let tr := calculate_trait_score th lang name ti genotype_data in
  dl <- alloc (OList []) ;;
  _ <- iterM (fun d => list_append dl (VDetail d)) (details tr) ;;
  alloc (ODict (result_fields tr dl)).

(** One [results[name] = result] of [_process_group], after
    [result['group_name'] = group_name]. *)
Definition add_group_trait_h (th : Q * Q) (lang gname : string)
    (genotype_data : genotype_map) (res : loc) (ti : trait_info) : M unit :=
  match ti_name ti with
  | Some n =>
      r <- trait_h th lang n ti genotype_data ;;
      _ <- dict_setitem r "group_name" (VStr gname) ;;
      dict_setitem res n (VRef r)
  | None => fail
  end.

(** [_process_group]. *)
Definition process_group_h (th : Q * Q) (lang : string) (g : group)
    (genotype_data : genotype_map) : M loc :=
  let gname := get_default "Unknown" (group_name g) in
  res <- alloc (ODict []) ;;
  _ <- iterM
         (fun node =>
            match subtraits node with
            | Some subs => iterM (add_group_trait_h th lang gname genotype_data res) subs
            | None =>
                match variants (node_info node) with
                | Some _ => add_group_trait_h th lang gname genotype_data res (node_info node)
                | None => ret tt
                end
            end)
         (group_traits g) ;;
  ret res.

(** The body of [calculate_score] once the inputs are read. *)
Definition scoring_h (self : scorer) (genotype_data : genotype_map) : M loc :=
  let th := thresholds self in
  let lang := language self in
  results <- alloc (ODict []) ;;
  _ <- match taxonomy (sc_schema self) with
       | Some top_groups =>
           iterM (fun g => gr <- process_group_h th lang g genotype_data ;;
                           dict_update results gr) top_groups
       | None =>
           iterM (fun nti => r <- trait_h th lang (fst nti) (snd nti) genotype_data ;;
                             dict_setitem results (fst nti) (VRef r))
                 (traits (sc_schema self))
       end ;;
  ret results.

(** [genotype_data]: a dict of strings. *)
Fixpoint str_dict (kvs : list (string * pyval)) : option genotype_map :=
  match kvs with
  | [] => Some []
  | (k, VStr s) :: t => match str_dict t with Some g => Some ((k, s) :: g) | None => None end
  | _ :: _ => None
  end.

(** Reads of [self.schema], [self.thresholds[0..1]], [self.language] and
    of the caller's [genotype_data]. *)
Definition read_inputs (self gl : loc) : M (scorer * genotype_map) :=
  so <- load self ;;
  match so with
  | ODict f =>
      match dict_get f "schema", dict_get f "thresholds", dict_get f "language" with
      | Some (VRef ls), Some (VRef lt), Some (VStr lang) =>
          s <- load ls ;;
          t <- load lt ;;
          go <- load gl ;;
          match s, t, go with
          | OSchema sch, OList (VNum lo :: VNum hi :: _), ODict gkvs =>
              match str_dict gkvs with
              | Some g => ret ({| sc_schema := sch; thresholds := (lo, hi);
                                  language := lang |}, g)
              | None => fail
              end
          | _, _, _ => fail
          end
      | _, _, _ => fail
      end
  | _ => fail
  end.

(** [scorer.calculate_score(genotype_data)] on the scorer object at [self]
    and the dict at [gl]; returns the new [results] dict. *)
Definition calculate_score_h (self gl : loc) : M loc :=
  inp <- read_inputs self gl ;;
  scoring_h (fst inp) (snd inp).

Local Set Warnings "-register-all".

(** Python's [==] on the returned structure: the value read through the
    references. *)
Inductive dval :=
| DStr (s : string)
| DNum (q : Q)
| DDetail (d : detail)
| DDict (kvs : list (string * dval))
| DList (xs : list dval)
| DSchema (s : schema).

Fixpoint all_some {A} (xs : list (option A)) : option (list A) :=
  match xs with
  | [] => Some []
  | Some x :: t => match all_some t with Some l => Some (x :: l) | None => None end
  | None :: _ => None
  end.

Fixpoint deep (fuel : nat) (h : loc -> option obj) (v : pyval) : option dval :=
  match v with
  | VStr s => Some (DStr s)
  | VNum q => Some (DNum q)
  | VDetail d => Some (DDetail d)
  | VRef l =>
      match fuel with
      | O => None
      | S f =>
          match h l with
          | Some (ODict kvs) =>
              option_map DDict
                (all_some (map (fun kv => option_map (pair (fst kv)) (deep f h (snd kv))) kvs))
          | Some (OList xs) => option_map DList (all_some (map (deep f h) xs))
          | Some (OSchema s) => Some (DSchema s)
          | None => None
          end
      end
  end.

(** A results dict is read to depth 4: results, result, details, detail. *)
Definition results_value (h : loc -> option obj) (l : loc) : option dval :=
  deep 4 h (VRef l).

Definition result_dval (tr : trait_result) : dval :=
  DDict ([("name", DStr (tr_name tr));
          ("normalized_score", DNum (normalized_score tr));
          ("score", DNum (score tr));
          ("max_possible_score", DNum (max_possible_score tr));
          ("percentage", DNum (percentage tr));
          ("classification", DStr (classification tr));
          ("domain", DStr (tr_domain tr));
          ("details", DList (map DDetail (details tr)))] ++
         match group_name_field tr with
         | Some gn => [("group_name", DStr gn)]
         | None => []
         end).

Definition results_dval (res : list (string * trait_result)) : dval :=
  DDict (map (fun kv => (fst kv, result_dval (snd kv))) res).

End Heap.

Module HeapSamples.
Import Heap.

(** The scorer of [one_variant_scorer "risk_up"] at 0 (schema at 1,
    thresholds at 2) and the genotype dict [{"rs1": "AA"}] at 3. *)
Definition sample_store : store :=
  {| next := 4;
     mem := fun x =>
       match x with
       | 0 => Some (ODict [("schema", VRef 1); ("thresholds", VRef 2);
                           ("language", VStr "en")])
       | 1 => Some (OSchema (sc_schema (one_variant_scorer "risk_up")))
       | 2 => Some (OList [VNum (33 # 1); VNum (66 # 1)])
       | 3 => Some (ODict [("rs1", VStr "AA")])
       | _ => None
       end%nat |}.
End HeapSamples.

(** ** Basic lemmas *)

Lemma qltb_spec (x y : Q) : qltb x y = true <-> x < y.
Proof.
  unfold qltb. rewrite negb_true_iff.
  split; intro H.
  - apply Qnot_le_lt. intro Hle. apply Qle_bool_iff in Hle. congruence.
  - destruct (Qle_bool y x) eqn:E; [|reflexivity].
    apply Qle_bool_iff in E. exfalso. apply (Qlt_not_le x y); assumption.
Qed.

Lemma qltb_false (x y : Q) : qltb x y = false <-> y <= x.
Proof.
  unfold qltb. rewrite negb_false_iff. apply Qle_bool_iff.
Qed.

Lemma in_012_spec (p : Q) : in_012 p = true <-> p == 0 \/ p == 1 \/ p == 2.
Proof.
  unfold in_012. rewrite !orb_true_iff, !Qeq_bool_iff. tauto.
Qed.

Lemma risk_label_inj (lang : string) (a b : risk_level) :
  risk_label lang a = risk_label lang b -> a = b.
Proof.
  unfold risk_label. destruct (String.eqb lang "tr");
    destruct a, b; intro H; solve [reflexivity | discriminate H].
Qed.

Lemma diploid_missing_spec (o : option string) :
  diploid_missing o = true <->
  o = None \/ exists d, o = Some d /\ String.length d <> 2%nat.
Proof.
  destruct o as [d|]; simpl; split.
  - intro H. right. exists d. split; [reflexivity|].
    apply orb_true_iff in H. destruct H as [H|H].
    + apply String.eqb_eq in H. subst. simpl. lia.
    + apply negb_true_iff, Nat.eqb_neq in H. exact H.
  - intros [H|[d' [H1 H2]]]; [discriminate|]. injection H1 as <-.
    apply orb_true_iff. right. apply negb_true_iff, Nat.eqb_neq. exact H2.
  - intros _. left. reflexivity.
  - intros _. reflexivity.
Qed.

Lemma diploid_missing_two (d : string) :
  String.length d = 2%nat -> diploid_missing (Some d) = false.
Proof.
  intro H. simpl. rewrite H. destruct d as [|c t]; [discriminate|]. reflexivity.
Qed.

(** Each loop step only appends to [variant_details]. *)
Lemma variant_step_details (g : genotype_map) (sc mx : Q) (ds : list detail)
    (v : variant) :
  variant_step g (sc, mx, ds) v =
  (acc_score (variant_step g (sc, mx, []) v),
   acc_max (variant_step g (sc, mx, []) v),
   ds ++ acc_details (variant_step g (sc, mx, []) v)).
Proof.
  unfold variant_step.
  destruct (String.eqb (direction_of v) "neutral"); [reflexivity|].
  destruct (point_mode v) as [[w pm]|];
    destruct (genotype_get g (rsid v)) as [d|];
    try destruct (diploid_missing (Some d));
    unfold acc_score, acc_max, acc_details; simpl; rewrite ?app_nil_r; reflexivity.
Qed.

Lemma fold_step_details (g : genotype_map) (vs : list variant)
    (sc mx : Q) (ds : list detail) :
  fold_left (variant_step g) vs (sc, mx, ds) =
  (acc_score (fold_left (variant_step g) vs (sc, mx, [])),
   acc_max (fold_left (variant_step g) vs (sc, mx, [])),
   ds ++ acc_details (fold_left (variant_step g) vs (sc, mx, []))).
Proof.
  revert sc mx ds. induction vs as [|v vs IH]; intros sc mx ds; cbn [fold_left].
  - unfold acc_score, acc_max, acc_details; simpl. rewrite app_nil_r. reflexivity.
  - rewrite (variant_step_details g sc mx ds v).
    destruct (variant_step g (sc, mx, []) v) as [[a b] c].
    unfold acc_score, acc_max, acc_details; cbn [fst snd].
    rewrite (IH a b (ds ++ c)), (IH a b c).
    unfold acc_score, acc_max, acc_details; cbn [fst snd].
    rewrite app_assoc. reflexivity.
Qed.

Lemma classify_level_spec (lo hi p : Q) :
  lo < hi ->
  (classify_level (lo, hi) p = RLow <-> p < lo) /\
  (classify_level (lo, hi) p = RMedium <-> lo <= p /\ p < hi) /\
  (classify_level (lo, hi) p = RHigh <-> hi <= p).
Proof.
  intro Hlt. unfold classify_level; cbn [fst snd].
  destruct (qltb p lo) eqn:E1; destruct (qltb p hi) eqn:E2;
    first [apply qltb_spec in E1 | apply qltb_false in E1];
    first [apply qltb_spec in E2 | apply qltb_false in E2];
    (split; [|split]); split; intro H;
    repeat match goal with Hc : _ /\ _ |- _ => destruct Hc end;
    try discriminate; try reflexivity; try (split; lra); try lra.
Qed.

(** ** Claims *)

(** C3: for thresholds [lo < hi], [_classify_risk] returns the LOW label
    exactly when [p < lo], MEDIUM exactly when [lo <= p < hi], HIGH exactly
    when [p >= hi] (the labels of the scorer's language; "LOW", "MEDIUM",
    "HIGH" for "en"); [p = lo] is MEDIUM and [p = hi] is HIGH. *)
Theorem classify_risk_partition (lo hi p : Q) (lang : string) (Hlohi : lo < hi) :
  (classify_risk (lo, hi) lang p = risk_label lang RLow <-> p < lo) /\
  (classify_risk (lo, hi) lang p = risk_label lang RMedium <-> lo <= p /\ p < hi) /\
  (classify_risk (lo, hi) lang p = risk_label lang RHigh <-> hi <= p) /\
  classify_risk (lo, hi) lang lo = risk_label lang RMedium /\
  classify_risk (lo, hi) lang hi = risk_label lang RHigh /\
  (risk_label "en" RLow, risk_label "en" RMedium, risk_label "en" RHigh)
    = ("LOW", "MEDIUM", "HIGH").
Proof.
  unfold classify_risk.
  assert (Hinj : forall a b, risk_label lang a = risk_label lang b <-> a = b)
    by (intros a b; split; [apply risk_label_inj | intros ->; reflexivity]).
  rewrite !Hinj.
  destruct (classify_level_spec lo hi p Hlohi) as [H1 [H2 H3]].
  destruct (classify_level_spec lo hi lo Hlohi) as [_ [L2 _]].
  destruct (classify_level_spec lo hi hi Hlohi) as [_ [_ L3]].
  repeat split; try tauto.
  - apply L2. split; [apply Qle_refl | exact Hlohi].
  - apply L3. apply Qle_refl.
Qed.

Lemma classify_risk_partition_witness :
  (33 # 1) < (66 # 1) /\
  ((classify_risk (33 # 1, 66 # 1) "en" (50 # 1) = risk_label "en" RLow <-> (50 # 1) < (33 # 1)) /\
   (classify_risk (33 # 1, 66 # 1) "en" (50 # 1) = risk_label "en" RMedium <->
      (33 # 1) <= (50 # 1) /\ (50 # 1) < (66 # 1)) /\
   (classify_risk (33 # 1, 66 # 1) "en" (50 # 1) = risk_label "en" RHigh <-> (66 # 1) <= (50 # 1)) /\
   classify_risk (33 # 1, 66 # 1) "en" (33 # 1) = risk_label "en" RMedium /\
   classify_risk (33 # 1, 66 # 1) "en" (66 # 1) = risk_label "en" RHigh /\
   (risk_label "en" RLow, risk_label "en" RMedium, risk_label "en" RHigh)
     = ("LOW", "MEDIUM", "HIGH")).
Proof.
  split; [reflexivity|].
  apply (classify_risk_partition (33 # 1) (66 # 1) (50 # 1) "en"). reflexivity.
Defined.

(** C8: one trait with one variant of weight 2.0 and default thresholds
    [33, 66]: risk_up with "AA" gives score 4.0, max 4.0, 100.0 %, HIGH;
    risk_down with "AG" gives score 2.0, max 4.0, 50.0 %, MEDIUM. *)
Theorem scenario_single_variant :
  (exists r, one_trait "risk_up" [("rs1", "AA")] = Some r /\
     score r == 4 /\ max_possible_score r == 4 /\ percentage r == 100 /\
     classification r = "HIGH") /\
  (exists r, one_trait "risk_down" [("rs1", "AG")] = Some r /\
     score r == 2 /\ max_possible_score r == 4 /\ percentage r == 50 /\
     classification r = "MEDIUM").
Proof.
  split; eexists; split; [vm_compute; reflexivity | | vm_compute; reflexivity | ];
    vm_compute; repeat split; reflexivity.
Qed.

Lemma direction_neq (v : variant) (s : string) :
  direction_of v <> s -> String.eqb (direction_of v) s = false.
Proof. intro H. apply String.eqb_neq. exact H. Qed.

Lemma point_mode_some (v : variant) (scr : scoring_t) (pm : list (string * Q)) :
  scoring v = Some scr -> genotype_points scr = Some pm ->
  point_mode v = Some (get_default 1 (default_weight scr), pm).
Proof. intros H1 H2. unfold point_mode. rewrite H1, H2. reflexivity. Qed.

(** A scored step with a two-character genotype in point-map mode. *)
Lemma variant_step_points (g : genotype_map) (v : variant) (w : Q)
    (pm : list (string * Q)) (d : string) (sc mx : Q) (ds : list detail) :
  direction_of v <> "neutral" -> point_mode v = Some (w, pm) ->
  genotype_get g (rsid v) = Some d -> String.length d = 2%nat ->
  let pts := get_default 0 (dict_get pm (py_str_nat (get_allele_count d))) in
  let ts := points_trait_score (direction_of v) pts w in
  variant_step g (sc, mx, ds) v =
  (sc + ts, mx + 2 * w,
   ds ++ [DPoints (rsid v) d (get_allele_count d) pts (direction_of v) w ts]).
Proof.
  intros Hn Hpm Hd Hlen. unfold variant_step.
  rewrite (direction_neq v _ Hn), Hpm, Hd, (diploid_missing_two d Hlen).
  reflexivity.
Qed.

(** A scored step with a two-character genotype in legacy mode. *)
Lemma variant_step_legacy (g : genotype_map) (v : variant) (d : string)
    (sc mx : Q) (ds : list detail) :
  direction_of v <> "neutral" -> point_mode v = None ->
  genotype_get g (rsid v) = Some d -> String.length d = 2%nat ->
  let w := get_default 1 (weight v) in
  let ts := legacy_trait_score (direction_of v) (get_allele_count d) w in
  variant_step g (sc, mx, ds) v =
  (sc + ts, mx + 2 * w,
   ds ++ [DLegacy (rsid v) d (get_allele_count d) (direction_of v) w ts]).
Proof.
  intros Hn Hpm Hd Hlen. unfold variant_step.
  rewrite (direction_neq v _ Hn), Hpm, Hd, (diploid_missing_two d Hlen).
  reflexivity.
Qed.

Lemma variant_step_neutral (g : genotype_map) (v : variant) (sc mx : Q)
    (ds : list detail) :
  direction_of v = "neutral" ->
  variant_step g (sc, mx, ds) v = (sc, mx, ds ++ [DNeutral (rsid v)]).
Proof. intro H. unfold variant_step. rewrite H. reflexivity. Qed.

(** C4: in point-map mode (variant declares [scoring.genotype_points]) with a
    two-character genotype and direction risk_up, contextual or risk_down,
    the weight is [scoring.default_weight] (default 1.0) whatever the
    top-level [weight]; points are [point_map.get(str(allele_count), 0)];
    the contribution is [points * w] for risk_up and contextual,
    [(2 - points) * w] for risk_down when points is 0, 1 or 2 and 0
    otherwise; the max-possible contribution is [2 * w]. *)
Theorem point_map_scoring (g : genotype_map) (v : variant) (scr : scoring_t)
    (pm : list (string * Q)) (d : string) (sc mx : Q) (ds : list detail)
    (Hsc : scoring v = Some scr) (Hpm : genotype_points scr = Some pm)
    (Hd : genotype_get g (rsid v) = Some d) (Hlen : String.length d = 2%nat)
    (Hdir : In (direction_of v) ["risk_up"; "contextual"; "risk_down"]) :
  let w := get_default 1 (default_weight scr) in
  let pts := get_default 0 (dict_get pm (py_str_nat (get_allele_count d))) in
  let r := variant_step g (sc, mx, ds) v in
  ((direction_of v = "risk_up" \/ direction_of v = "contextual") ->
     acc_score r = sc + pts * w) /\
  (direction_of v = "risk_down" -> (pts == 0 \/ pts == 1 \/ pts == 2) ->
     acc_score r = sc + (2 - pts) * w) /\
  (direction_of v = "risk_down" -> ~ (pts == 0 \/ pts == 1 \/ pts == 2) ->
     acc_score r == sc) /\
  acc_max r = mx + 2 * w /\
  (forall top_weight : option Q,
     variant_step g (sc, mx, ds)
       {| rsid := rsid v; weight := top_weight; effect := effect v;
          scoring := scoring v |} = r).
Proof.
  intros w pts r.
  assert (Hn : direction_of v <> "neutral").
  { intro E. rewrite E in Hdir. simpl in Hdir. intuition discriminate. }
  pose proof (point_mode_some v scr pm Hsc Hpm) as HP.
  assert (Hr : r = (sc + points_trait_score (direction_of v) pts w, mx + 2 * w,
                    ds ++ [DPoints (rsid v) d (get_allele_count d) pts
                             (direction_of v) w
                             (points_trait_score (direction_of v) pts w)]))
    by exact (variant_step_points g v w pm d sc mx ds Hn HP Hd Hlen).
  unfold acc_score, acc_max. rewrite Hr. cbn [fst snd].
  unfold points_trait_score.
  split; [|split; [|split; [|split]]].
  - intros [E|E]; rewrite E; reflexivity.
  - intros E H012. rewrite E. cbn.
    apply in_012_spec in H012. rewrite H012. reflexivity.
  - intros E H012. rewrite E. cbn.
    destruct (in_012 pts) eqn:E012.
    + apply in_012_spec in E012. contradiction.
    + lra.
  - reflexivity.
  - intro tw.
    exact (variant_step_points g
             {| rsid := rsid v; weight := tw; effect := effect v;
                scoring := scoring v |} w pm d sc mx ds Hn HP Hd Hlen).
Qed.

Lemma point_map_scoring_witness :
  let v := pm_variant "risk_down" in
  let scr := {| default_weight := Some (3 # 2);
                genotype_points := Some [("0", 0); ("1", 1); ("2", 3 # 1)] |} in
  scoring v = Some scr /\
  genotype_get [("rs1", "GT")] (rsid v) = Some "GT" /\
  String.length "GT" = 2%nat /\
  In (direction_of v) ["risk_up"; "contextual"; "risk_down"] /\
  (let w := get_default 1 (default_weight scr) in
   let pts := get_default 0 (dict_get [("0", 0); ("1", 1); ("2", 3 # 1)]
                               (py_str_nat (get_allele_count "GT"))) in
   let r := variant_step [("rs1", "GT")] (0, 0, []) v in
   ((direction_of v = "risk_up" \/ direction_of v = "contextual") ->
      acc_score r = 0 + pts * w) /\
   (direction_of v = "risk_down" -> (pts == 0 \/ pts == 1 \/ pts == 2) ->
      acc_score r = 0 + (2 - pts) * w) /\
   (direction_of v = "risk_down" -> ~ (pts == 0 \/ pts == 1 \/ pts == 2) ->
      acc_score r == 0) /\
   acc_max r = 0 + 2 * w /\
   (forall top_weight : option Q,
      variant_step [("rs1", "GT")] (0, 0, [])
        {| rsid := rsid v; weight := top_weight; effect := effect v;
           scoring := scoring v |} = r)).
Proof.
  simpl. split; [reflexivity|]. split; [reflexivity|]. split; [reflexivity|].
  split; [right; right; left; reflexivity|].
  apply (point_map_scoring [("rs1", "GT")] (pm_variant "risk_down")
           {| default_weight := Some (3 # 2);
              genotype_points := Some [("0", 0); ("1", 1); ("2", 3 # 1)] |}
           [("0", 0); ("1", 1); ("2", 3 # 1)] "GT" 0 0 []);
    [reflexivity | reflexivity | reflexivity | reflexivity | simpl; auto].
Defined.

(** Score and max after a list of variants do not depend on the details
    collected so far. *)
Lemma fold_score_max (g : genotype_map) (vs : list variant) (sc mx : Q)
    (ds ds' : list detail) :
  fst (fold_left (variant_step g) vs (sc, mx, ds)) =
  fst (fold_left (variant_step g) vs (sc, mx, ds')).
Proof.
  rewrite (fold_step_details g vs sc mx ds), (fold_step_details g vs sc mx ds').
  reflexivity.
Qed.

Lemma fold_neutral_insert (g : genotype_map) (vs1 vs2 : list variant)
    (v : variant) :
  direction_of v = "neutral" ->
  fst (score_variants g (vs1 ++ v :: vs2)) = fst (score_variants g (vs1 ++ vs2)).
Proof.
  intro Hn. unfold score_variants. rewrite !fold_left_app. cbn [fold_left].
  destruct (fold_left (variant_step g) vs1 (0, 0, [])) as [[a b] c].
  rewrite (variant_step_neutral g v a b c Hn).
  apply fold_score_max.
Qed.

(** C7: a variant whose direction is "neutral" adds 0 to the score and to
    max_possible_score and appends the line
    "<rsid>: Neutral (phenotypic only, not scored)"; inserting it anywhere
    in a trait changes neither score, max_possible_score, percentage,
    normalized_score nor classification. *)
Theorem neutral_variant_not_scored (g : genotype_map) (v : variant)
    (Hn : direction_of v = "neutral") :
  (forall sc mx ds,
     variant_step g (sc, mx, ds) v = (sc, mx, ds ++ [DNeutral (rsid v)])) /\
  (forall show_num,
     render_detail show_num (DNeutral (rsid v)) =
     String.append (show_rsid (rsid v)) ": Neutral (phenotypic only, not scored)") /\
  (forall th lang name nm dom vs1 vs2,
     let r1 := calculate_trait_score th lang name
                 {| ti_name := nm; domain := dom; variants := Some (vs1 ++ v :: vs2) |} g in
     let r0 := calculate_trait_score th lang name
                 {| ti_name := nm; domain := dom; variants := Some (vs1 ++ vs2) |} g in
     score r1 = score r0 /\ max_possible_score r1 = max_possible_score r0 /\
     percentage r1 = percentage r0 /\ normalized_score r1 = normalized_score r0 /\
     classification r1 = classification r0).
Proof.
  split; [|split].
  - intros. apply variant_step_neutral. exact Hn.
  - intros. reflexivity.
  - intros th lang name nm dom vs1 vs2 r1 r0.
    pose proof (fold_neutral_insert g vs1 vs2 v Hn) as E.
    subst r1 r0. unfold calculate_trait_score. cbn [variants get_default].
    destruct (score_variants g (vs1 ++ v :: vs2)) as [[a b] c].
    destruct (score_variants g (vs1 ++ vs2)) as [[a' b'] c'].
    cbn [fst] in E. injection E as -> ->.
    repeat split; reflexivity.
Qed.

Lemma neutral_variant_not_scored_witness :
  direction_of neutral_variant = "neutral" /\
  variant_step [("rs9", "AA")] (1, 2, []) neutral_variant
    = (1, 2, [DNeutral (Some "rs9")]).
Proof.
  split; [reflexivity|].
  destruct (neutral_variant_not_scored [("rs9", "AA")] neutral_variant
              eq_refl) as [H _].
  apply H.
Defined.

(** A direction outside the four known ones scores 0 in both modes. *)
Lemma unknown_direction_step (g : genotype_map) (v : variant) (d : string)
    (sc mx : Q) (ds : list detail) :
  ~ In (direction_of v) ["risk_up"; "risk_down"; "contextual"; "neutral"] ->
  genotype_get g (rsid v) = Some d -> String.length d = 2%nat ->
  exists det, variant_step g (sc, mx, ds) v = (sc + 0, mx + 2 * used_weight v, ds ++ [det]).
Proof.
  intros Hdir Hd Hlen.
  assert (Hu : direction_of v <> "risk_up") by (intro E; apply Hdir; rewrite E; simpl; auto).
  assert (Hdn : direction_of v <> "risk_down") by (intro E; apply Hdir; rewrite E; simpl; auto).
  assert (Hc : direction_of v <> "contextual") by (intro E; apply Hdir; rewrite E; simpl; auto).
  assert (Hn : direction_of v <> "neutral") by (intro E; apply Hdir; rewrite E; simpl; auto).
  unfold used_weight.
  destruct (point_mode v) as [[w pm]|] eqn:Hpm.
  - rewrite (variant_step_points g v w pm d sc mx ds Hn Hpm Hd Hlen).
    unfold points_trait_score.
    rewrite (direction_neq v _ Hu), (direction_neq v _ Hdn), (direction_neq v _ Hc).
    eexists. reflexivity.
  - rewrite (variant_step_legacy g v d sc mx ds Hn Hpm Hd Hlen).
    unfold legacy_trait_score.
    rewrite (direction_neq v _ Hu), (direction_neq v _ Hdn), (direction_neq v _ Hc).
    eexists. reflexivity.
Qed.

Lemma raw_percentage_pos (sc mx : Q) :
  0 < mx -> raw_percentage sc mx = (sc / mx) * 100.
Proof.
  intro H. unfold raw_percentage. apply qltb_spec in H. rewrite H. reflexivity.
Qed.

(** C10: a variant whose direction is none of risk_up, risk_down,
    contextual, neutral and whose genotype has two characters adds 0 to the
    score, [2 * weight] to max_possible_score and one detail line; so, with
    a positive weight, when the other variants scored above 0 the
    percentage (before rounding) is strictly lower than without it: the
    variant is not excluded from the denominator. *)
Theorem unknown_direction_in_denominator (g : genotype_map) (vs : list variant)
    (v : variant) (d : string)
    (Hdir : ~ In (direction_of v) ["risk_up"; "risk_down"; "contextual"; "neutral"])
    (Hd : genotype_get g (rsid v) = Some d) (Hlen : String.length d = 2%nat) :
  let r0 := score_variants g vs in
  let r1 := score_variants g (vs ++ [v]) in
  acc_score r1 = acc_score r0 + 0 /\
  acc_max r1 = acc_max r0 + 2 * used_weight v /\
  length (acc_details r1) = S (length (acc_details r0)) /\
  (0 < used_weight v -> 0 < acc_score r0 -> 0 < acc_max r0 ->
     raw_percentage (acc_score r1) (acc_max r1) <
     raw_percentage (acc_score r0) (acc_max r0)).
Proof.
  intros r0 r1. subst r0 r1. unfold score_variants. rewrite fold_left_app.
  cbn [fold_left].
  destruct (fold_left (variant_step g) vs (0, 0, [])) as [[s m] ds].
  destruct (unknown_direction_step g v d s m ds Hdir Hd Hlen) as [det Hstep].
  rewrite Hstep. unfold acc_score, acc_max, acc_details. cbn [fst snd].
  split; [reflexivity|]. split; [reflexivity|].
  split; [rewrite length_app; simpl; lia|].
  intros Hw Hs Hm.
  assert (Hm' : 0 < m + 2 * used_weight v) by lra.
  rewrite (raw_percentage_pos _ _ Hm'), (raw_percentage_pos _ _ Hm).
  apply Qmult_lt_r; [reflexivity|].
  unfold Qdiv. setoid_replace (s + 0) with s by ring.
  apply Qmult_lt_l; [exact Hs|].
  apply (proj1 (Qinv_lt_contravar m (m + 2 * used_weight v) Hm Hm')). lra.
Qed.

Lemma unknown_direction_in_denominator_witness :
  ~ In (direction_of odd_variant) ["risk_up"; "risk_down"; "contextual"; "neutral"] /\
  genotype_get [("rs1", "AA"); ("rs7", "CT")] (rsid odd_variant) = Some "CT" /\
  String.length "CT" = 2%nat /\
  raw_percentage (acc_score (score_variants [("rs1", "AA"); ("rs7", "CT")]
                                            [up_variant; odd_variant]))
                 (acc_max (score_variants [("rs1", "AA"); ("rs7", "CT")]
                                          [up_variant; odd_variant])) <
  raw_percentage (acc_score (score_variants [("rs1", "AA"); ("rs7", "CT")] [up_variant]))
                 (acc_max (score_variants [("rs1", "AA"); ("rs7", "CT")] [up_variant])).
Proof.
  assert (Hdir : ~ In (direction_of odd_variant)
                   ["risk_up"; "risk_down"; "contextual"; "neutral"])
    by (simpl; intuition discriminate).
  split; [exact Hdir|]. split; [reflexivity|]. split; [reflexivity|].
  destruct (unknown_direction_in_denominator [("rs1", "AA"); ("rs7", "CT")]
              [up_variant] odd_variant "CT" Hdir eq_refl eq_refl)
    as [_ [_ [_ H]]].
  apply H; vm_compute; reflexivity.
Defined.


(** A step with an absent or malformed genotype leaves score and max. *)
Lemma variant_step_missing (g : genotype_map) (v : variant) (sc mx : Q)
    (ds : list detail) :
  diploid_missing (genotype_get g (rsid v)) = true ->
  acc_score (variant_step g (sc, mx, ds) v) = sc /\
  acc_max (variant_step g (sc, mx, ds) v) = mx.
Proof.
  intro H. unfold variant_step.
  destruct (String.eqb (direction_of v) "neutral"); [split; reflexivity|].
  destruct (point_mode v) as [[w pm]|];
    destruct (genotype_get g (rsid v)) as [d|];
    try rewrite H; split; reflexivity.
Qed.

(** C6 (corrected): an absent rsid or a genotype that is not two characters
    long never fails and adds 0 to score and max_possible_score; the step
    only appends to the details; a neutral variant appends its neutral line
    and a non-neutral variant in point-map mode appends "<rsid>: Missing". *)
Theorem missing_genotype_not_scored (g : genotype_map) (v : variant)
    (sc mx : Q) (ds : list detail)
    (Hmiss : genotype_get g (rsid v) = None \/
             exists d, genotype_get g (rsid v) = Some d /\ String.length d <> 2%nat) :
  let r := variant_step g (sc, mx, ds) v in
  acc_score r = sc /\ acc_max r = mx /\
  (exists extra, acc_details r = ds ++ extra) /\
  (direction_of v = "neutral" -> acc_details r = ds ++ [DNeutral (rsid v)]) /\
  (direction_of v <> "neutral" -> point_mode v <> None ->
     acc_details r = ds ++ [DMissing (rsid v)] /\
     (forall show_num, render_detail show_num (DMissing (rsid v)) =
                       String.append (show_rsid (rsid v)) ": Missing")).
Proof.
  intro r. apply diploid_missing_spec in Hmiss.
  destruct (variant_step_missing g v sc mx ds Hmiss) as [Hs Hm].
  split; [exact Hs|]. split; [exact Hm|].
  split; [|split].
  - subst r. rewrite (variant_step_details g sc mx ds v). eexists. reflexivity.
  - intro Hn. subst r. rewrite (variant_step_neutral g v sc mx ds Hn). reflexivity.
  - intros Hn Hpm. split; [|reflexivity].
    subst r. unfold variant_step. rewrite (direction_neq v _ Hn).
    destruct (point_mode v) as [[w pm]|]; [|contradiction].
    destruct (genotype_get g (rsid v)) as [d|]; [rewrite Hmiss|]; reflexivity.
Qed.

Lemma missing_genotype_not_scored_witness :
  (genotype_get [] (rsid (pm_variant "risk_up")) = None \/
   exists d, genotype_get [] (rsid (pm_variant "risk_up")) = Some d /\
             String.length d <> 2%nat) /\
  acc_details (variant_step [] (0, 0, []) (pm_variant "risk_up"))
    = [DMissing (Some "rs1")].
Proof.
  assert (Hm : genotype_get [] (rsid (pm_variant "risk_up")) = None \/
               exists d, genotype_get [] (rsid (pm_variant "risk_up")) = Some d /\
                         String.length d <> 2%nat) by (left; reflexivity).
  split; [exact Hm|].
  destruct (missing_genotype_not_scored [] (pm_variant "risk_up") 0 0 [] Hm)
    as [_ [_ [_ [_ H]]]].
  apply H; [discriminate | discriminate].
Defined.

(** C6 counterexample: a neutral variant with no genotype gets no
    "Missing" line. *)
Lemma missing_detail_counterexample :
  ~ (forall (g : genotype_map) (v : variant),
       genotype_get g (rsid v) = None ->
       In (DMissing (rsid v)) (acc_details (variant_step g (0, 0, []) v))).
Proof.
  intro H. specialize (H [] neutral_variant eq_refl).
  vm_compute in H. destruct H as [H|H]; [discriminate H | exact H].
Qed.

(** C1 (corrected): the genotype map is read as it is, with no zygosity
    detection; in legacy mode a tag is decoded by the diploid rule only:
    "wt" (two different characters) counts 1 allele, and "het", "hom",
    "missing" (not two characters) are missing genotypes that change
    neither score, max_possible_score nor details. *)
Theorem zygosity_tags_read_as_diploid (g : genotype_map) (v : variant)
    (sc mx : Q) (ds : list detail)
    (Hpm : point_mode v = None) (Hn : direction_of v <> "neutral") :
  let w := get_default 1 (weight v) in
  get_allele_count "wt" = 1%nat /\
  (genotype_get g (rsid v) = Some "wt" ->
     variant_step g (sc, mx, ds) v =
     (sc + legacy_trait_score (direction_of v) 1 w, mx + 2 * w,
      ds ++ [DLegacy (rsid v) "wt" 1 (direction_of v) w
                     (legacy_trait_score (direction_of v) 1 w)])) /\
  (forall tag, In tag ["het"; "hom"; "missing"] ->
     genotype_get g (rsid v) = Some tag ->
     variant_step g (sc, mx, ds) v = (sc, mx, ds)).
Proof.
  intro w. split; [reflexivity|]. split.
  - intro Hd. exact (variant_step_legacy g v "wt" sc mx ds Hn Hpm Hd eq_refl).
  - intros tag Htag Hd. unfold variant_step.
    rewrite (direction_neq v _ Hn), Hpm, Hd.
    simpl in Htag. destruct Htag as [<-|[<-|[<-|[]]]]; reflexivity.
Qed.

Lemma zygosity_tags_read_as_diploid_witness :
  point_mode up_variant = None /\ direction_of up_variant <> "neutral" /\
  variant_step [("rs1", "hom")] (0, 0, []) up_variant = (0, 0, []).
Proof.
  assert (Hpm : point_mode up_variant = None) by reflexivity.
  assert (Hn : direction_of up_variant <> "neutral") by discriminate.
  split; [exact Hpm|]. split; [exact Hn|].
  destruct (zygosity_tags_read_as_diploid [("rs1", "hom")] up_variant 0 0 [] Hpm Hn)
    as [_ [_ H]].
  apply (H "hom"); simpl; auto.
Defined.

(** C1 counterexample: with the map [{"rs1": "hom"}] (first value a tag) a
    legacy risk_up variant of weight 1 scores 0, not 2 x 1. *)
Lemma zygosity_tags_counterexample :
  ~ (forall (g : genotype_map) (v : variant) (tag : string) (n : nat),
       point_mode v = None -> direction_of v = "risk_up" ->
       genotype_get g (rsid v) = Some tag ->
       spec_zygosity_allele_count tag = Some n ->
       acc_score (score_variants g [v]) ==
       inject_Z (Z.of_nat n) * get_default 1 (weight v)).
Proof.
  intro H.
  specialize (H [("rs1", "hom")] up_variant "hom" 2%nat eq_refl eq_refl eq_refl eq_refl).
  vm_compute in H. discriminate H.
Qed.

Lemma fold_unusable_max (g : genotype_map) (vs : list variant) (sc mx : Q)
    (ds : list detail) :
  (forall v, In v vs -> direction_of v = "neutral" \/
                        diploid_missing (genotype_get g (rsid v)) = true) ->
  acc_max (fold_left (variant_step g) vs (sc, mx, ds)) = mx.
Proof.
  revert sc mx ds. induction vs as [|v vs IH]; intros sc mx ds H; [reflexivity|].
  cbn [fold_left].
  assert (Hv : acc_max (variant_step g (sc, mx, ds) v) = mx).
  { destruct (H v (or_introl eq_refl)) as [Hn|Hm].
    - rewrite (variant_step_neutral g v sc mx ds Hn). reflexivity.
    - apply (variant_step_missing g v sc mx ds Hm). }
  destruct (variant_step g (sc, mx, ds) v) as [[a b] c].
  unfold acc_max in Hv. cbn in Hv. subst b.
  apply IH. intros v' Hin. apply H. right. exact Hin.
Qed.

Module FloatPercentFacts.
Import PrimFloat FloatPercent.

(** C5 (corrected): the percentage is computed in double precision as
    [round((score / max) * 100, 2)], division first, and normalized_score
    as the same value rounded to 1 decimal; both are 0 when max is not
    positive, which is the case (max = 0) when no variant had a usable
    genotype (every variant neutral or missing). *)
Theorem percentage_normalisation :
  (forall score mx : float, (0 <? mx)%float = false ->
     percentage_f score mx = 0%float /\ normalized_score_f score mx = 0%float) /\
  (forall score mx : float, (0 <? mx)%float = true ->
     percentage_f score mx = py_round_f ((score / mx) * 100)%float 2 /\
     normalized_score_f score mx = py_round_f ((score / mx) * 100)%float 1) /\
  (forall (th : Q * Q) (lang name : string) (ti : trait_info) (g : genotype_map),
     (forall v, In v (get_default [] (variants ti)) ->
        direction_of v = "neutral" \/ genotype_get g (rsid v) = None \/
        exists d, genotype_get g (rsid v) = Some d /\ String.length d <> 2%nat) ->
     max_possible_score (calculate_trait_score th lang name ti g) = 0).
Proof.
  split; [|split].
  - intros sc mx H. unfold percentage_f, normalized_score_f, percentage_float.
    rewrite H. split; vm_compute; reflexivity.
  - intros sc mx H. unfold percentage_f, normalized_score_f, percentage_float.
    rewrite H. split; reflexivity.
  - intros th lang name ti g Hall. unfold calculate_trait_score.
    destruct (score_variants g (get_default [] (variants ti))) as [[s m] ds] eqn:E.
    cbn [max_possible_score].
    pose proof (fold_unusable_max g (get_default [] (variants ti)) 0 0 []) as H.
    unfold score_variants in E. rewrite E in H. apply H.
    intros v Hin. destruct (Hall v Hin) as [Hn|Hmiss]; [left; exact Hn|].
    right. apply diploid_missing_spec. exact Hmiss.
Qed.

(** C5 counterexample: the percentage can be 0 with usable data (a
    risk_down variant with the genotype "AA" contributes 0 of 4), and the
    program's percentage is not always [round(100 × score / max, 2)]: a trait
    scored 23 of 160 (sums that are exact in double precision) gets 14.37,
    because [(23 / 160) * 100] is 14.374999999999998 in double precision,
    where [round(100 × 23 / 160, 2)] is 14.38 ([1437 / 100] and [1438 / 100]
    in double precision are the doubles Python prints as 14.37 and 14.38). *)
Lemma percentage_rounding_counterexample :
  (genotype_get [("rs1", "AA")] (Some "rs1") = Some "AA" /\
   exists r, one_trait "risk_down" [("rs1", "AA")] = Some r /\
     max_possible_score r == 4 /\ score r == 0 /\ percentage r == 0) /\
  percentage_f 0%float 4%float = 0%float /\
  (exists r, calculate_score rounding_scorer rounding_genotypes = Some [("T", r)] /\
     score r == 23 /\ max_possible_score r == 160) /\
  ((0 + 2 * 11.5) + (2 - 2) * 68.5)%float = 23%float /\
  ((0 + 2 * 11.5) + 2 * 68.5)%float = 160%float /\
  percentage_f 23%float 160%float = (1437 / 100)%float /\
  spec_percentage_f 23%float 160%float = (1438 / 100)%float /\
  (1437 / 100)%float <> (1438 / 100)%float.
Proof.
  split; [split; [reflexivity|]|].
  { eexists. split; [vm_compute; reflexivity|].
    vm_compute. repeat split; reflexivity. }
  split; [vm_compute; reflexivity|].
  split.
  { eexists. split; [vm_compute; reflexivity|]. vm_compute. split; reflexivity. }
  split; [vm_compute; reflexivity|].
  split; [vm_compute; reflexivity|].
  split; [vm_compute; reflexivity|].
  split; [vm_compute; reflexivity|].
  intro H. apply (f_equal (fun x => PrimFloat.eqb x (1437 / 100)%float)) in H.
  vm_compute in H. discriminate H.
Qed.
End FloatPercentFacts.

(** ** Bounds *)

Lemma dict_get_in {A} (kvs : list (string * A)) (k : string) (x : A) :
  dict_get kvs k = Some x -> In (k, x) kvs.
Proof.
  induction kvs as [|[k' v'] t IH]; simpl; [discriminate|].
  destruct (String.eqb k' k) eqn:E.
  - intro H. injection H as <-. apply String.eqb_eq in E. subst. left. reflexivity.
  - intro H. right. apply IH. exact H.
Qed.

Lemma scaled_contrib (a w : Q) : 0 <= a <= 2 -> 0 <= w -> 0 <= a * w <= 2 * w.
Proof.
  intros [H0 H2] Hw. split.
  - apply Qmult_le_0_compat; assumption.
  - apply Qmult_le_compat_r; assumption.
Qed.

Lemma get_allele_count_le (d : string) : (get_allele_count d <= 2)%nat.
Proof.
  unfold get_allele_count.
  destruct (negb (Nat.eqb (String.length d) 2)); [lia|].
  destruct (String.get 0 d), (String.get 1 d); try lia.
  destruct (Ascii.eqb _ _); lia.
Qed.

Lemma points_trait_score_bounds (dir : string) (pts w : Q) :
  0 <= pts <= 2 -> 0 <= w -> 0 <= points_trait_score dir pts w <= 2 * w.
Proof.
  intros Hp Hw. unfold points_trait_score.
  destruct (String.eqb dir "risk_up"); [apply scaled_contrib; assumption|].
  destruct (String.eqb dir "risk_down").
  - apply scaled_contrib; [|assumption].
    destruct (in_012 pts); lra.
  - destruct (String.eqb dir "contextual"); [apply scaled_contrib; assumption|].
    lra.
Qed.

Lemma legacy_trait_score_bounds (dir : string) (ac : nat) (w : Q) :
  (ac <= 2)%nat -> 0 <= w -> 0 <= legacy_trait_score dir ac w <= 2 * w.
Proof.
  intros Hac Hw.
  assert (Hz : 0 <= inject_Z (Z.of_nat ac) <= 2).
  { rewrite <- (Zle_Qle 0), <- (Zle_Qle _ 2). lia. }
  unfold legacy_trait_score.
  destruct (String.eqb dir "risk_up"); [apply scaled_contrib; assumption|].
  destruct (String.eqb dir "risk_down").
  - apply scaled_contrib; [lra | assumption].
  - destruct (String.eqb dir "contextual"); [apply scaled_contrib; assumption|].
    lra.
Qed.

Lemma variant_step_bounds (g : genotype_map) (v : variant) (sc mx : Q)
    (ds : list detail) :
  well_scaled v -> 0 <= sc <= mx ->
  0 <= acc_score (variant_step g (sc, mx, ds) v) <=
       acc_max (variant_step g (sc, mx, ds) v).
Proof.
  intros Hv Hb. unfold well_scaled in Hv.
  destruct (String.eqb (direction_of v) "neutral") eqn:En.
  - apply String.eqb_eq in En. rewrite (variant_step_neutral g v sc mx ds En).
    exact Hb.
  - apply String.eqb_neq in En.
    destruct (diploid_missing (genotype_get g (rsid v))) eqn:Em.
    + destruct (variant_step_missing g v sc mx ds Em) as [-> ->]. exact Hb.
    + destruct (genotype_get g (rsid v)) as [d|] eqn:Hd; [|discriminate].
      assert (Hlen : String.length d = 2%nat).
      { destruct (Nat.eq_dec (String.length d) 2) as [e|ne]; [exact e|].
        assert (diploid_missing (Some d) = true)
          by (apply diploid_missing_spec; right; exists d; split; [reflexivity|exact ne]).
        congruence. }
      destruct (point_mode v) as [[w pm]|] eqn:Hpm.
      * destruct Hv as [Hw Hpts].
        rewrite (variant_step_points g v w pm d sc mx ds En Hpm Hd Hlen).
        unfold acc_score, acc_max; cbn [fst snd].
        set (pts := get_default 0 (dict_get pm (py_str_nat (get_allele_count d)))).
        assert (Hp : 0 <= pts <= 2).
        { subst pts. destruct (dict_get pm _) as [x|] eqn:Ex; simpl.
          - apply dict_get_in in Ex. rewrite Forall_forall in Hpts.
            exact (Hpts _ Ex).
          - lra. }
        pose proof (points_trait_score_bounds (direction_of v) pts w Hp Hw). lra.
      * rewrite (variant_step_legacy g v d sc mx ds En Hpm Hd Hlen).
        unfold acc_score, acc_max; cbn [fst snd].
        pose proof (legacy_trait_score_bounds (direction_of v) (get_allele_count d)
                      (get_default 1 (weight v)) (get_allele_count_le d) Hv). lra.
Qed.

Lemma fold_bounds (g : genotype_map) (vs : list variant) (sc mx : Q)
    (ds : list detail) :
  Forall well_scaled vs -> 0 <= sc <= mx ->
  0 <= acc_score (fold_left (variant_step g) vs (sc, mx, ds)) <=
       acc_max (fold_left (variant_step g) vs (sc, mx, ds)).
Proof.
  revert sc mx ds. induction vs as [|v vs IH]; intros sc mx ds Hall Hb;
    [exact Hb|].
  inversion Hall as [|v' vs' Hv Hvs]; subst.
  cbn [fold_left].
  pose proof (variant_step_bounds g v sc mx ds Hv Hb) as Hs.
  destruct (variant_step g (sc, mx, ds) v) as [[a b] c].
  apply IH; assumption.
Qed.

Lemma round_half_even_bounds (x : Q) (N : Z) :
  0 <= x -> x <= inject_Z N -> (0 <= round_half_even x <= N)%Z.
Proof.
  destruct x as [a b]. unfold round_half_even, Qle, inject_Z. cbn [Qnum Qden].
  intros H0 H1. rewrite Z.mul_1_r in H1. simpl in H0.
  pose proof (Z.div_mod a (Zpos b) ltac:(lia)) as Hdm.
  pose proof (Z.mod_pos_bound a (Zpos b) ltac:(lia)) as Hr.
  assert (Hfl0 : (0 <= a / Zpos b)%Z) by (apply Z.div_pos; lia).
  assert (HflN : (a / Zpos b <= N)%Z) by (apply Z.div_le_upper_bound; lia).
  set (fl := (a / Zpos b)%Z) in *. set (r := (a mod Zpos b)%Z) in *.
  destruct (Z.compare (2 * r) (Zpos b)) eqn:Ec.
  - apply Z.compare_eq_iff in Ec.
    assert (fl < N)%Z by nia.
    destruct (Z.even fl); lia.
  - lia.
  - apply Z.compare_gt_iff in Ec.
    assert (fl < N)%Z by nia. lia.
Qed.

Lemma py_round_bounds (x : Q) (nd : nat) :
  0 <= x <= 100 -> 0 <= py_round x nd <= 100.
Proof.
  intros [H0 H1]. unfold py_round.
  set (p := Pos.of_nat (Nat.pow 10 nd)).
  rewrite Qred_correct.
  assert (Hy0 : 0 <= x * (Zpos p # 1))
    by (apply Qmult_le_0_compat; [exact H0 | unfold Qle; simpl; lia]).
  assert (Hy1 : x * (Zpos p # 1) <= inject_Z (100 * Zpos p)).
  { setoid_replace (inject_Z (100 * Zpos p)) with (100 * (Zpos p # 1))
      by (unfold Qeq; simpl; lia).
    apply Qmult_le_compat_r; [exact H1 | unfold Qle; simpl; lia]. }
  pose proof (round_half_even_bounds _ _ Hy0 Hy1) as Hn.
  unfold Qle; simpl. lia.
Qed.

Lemma raw_percentage_bounds (sc mx : Q) :
  0 <= sc <= mx -> 0 <= raw_percentage sc mx <= 100.
Proof.
  intros [H0 H1]. unfold raw_percentage.
  destruct (qltb 0 mx) eqn:E; [|lra].
  apply qltb_spec in E.
  assert (Ha : 0 <= sc / mx)
    by (apply Qle_shift_div_l; [exact E | lra]).
  assert (Hb : sc / mx <= 1)
    by (apply Qle_shift_div_r; [exact E | lra]).
  lra.
Qed.

Lemma trait_bounds (th : Q * Q) (lang name : string) (ti : trait_info)
    (g : genotype_map) :
  Forall well_scaled (get_default [] (variants ti)) ->
  let r := calculate_trait_score th lang name ti g in
  0 <= percentage r <= 100 /\ 0 <= score r <= max_possible_score r.
Proof.
  intros Hall r. subst r. unfold calculate_trait_score.
  pose proof (fold_bounds g (get_default [] (variants ti)) 0 0 [] Hall
                ltac:(lra)) as Hb.
  unfold score_variants.
  destruct (fold_left (variant_step g) (get_default [] (variants ti)) (0, 0, []))
    as [[s m] ds].
  unfold acc_score, acc_max in Hb; cbn [fst snd] in Hb.
  cbn [percentage score max_possible_score].
  split; [|exact Hb].
  apply py_round_bounds, raw_percentage_bounds, Hb.
Qed.

(** ** Every result of [calculate_score] is a scored trait of the schema *)

Lemma fold_left_inv {A B} (I : A -> Prop) (f : A -> B -> A) (l : list B) (a : A) :
  (forall x acc, In x l -> I acc -> I (f acc x)) -> I a -> I (fold_left f l a).
Proof.
  revert a. induction l as [|x l IH]; intros a Hf Ha; [exact Ha|].
  cbn [fold_left]. apply IH.
  - intros y acc Hy. apply Hf. right. exact Hy.
  - apply Hf; [left; reflexivity | exact Ha].
Qed.

Lemma py_setitem_forall {A} (P : A -> Prop) (l : list (string * A)) (k : string)
    (v : A) :
  Forall (fun kv => P (snd kv)) l -> P v ->
  Forall (fun kv => P (snd kv)) (py_setitem l k v).
Proof.
  induction l as [|[k' v'] t IH]; intros Hl Hv; simpl.
  - constructor; [exact Hv | constructor].
  - inversion Hl as [|x y Hx Ht]; subst.
    destruct (String.eqb k' k); constructor; auto.
Qed.

Lemma py_update_forall {A} (P : A -> Prop) (l o : list (string * A)) :
  Forall (fun kv => P (snd kv)) l -> Forall (fun kv => P (snd kv)) o ->
  Forall (fun kv => P (snd kv)) (py_update l o).
Proof.
  intros Hl Ho. unfold py_update.
  apply (fold_left_inv (fun acc => Forall (fun kv => P (snd kv)) acc)); [|exact Hl].
  intros kv acc Hin Hacc. apply py_setitem_forall; [exact Hacc|].
  rewrite Forall_forall in Ho. exact (Ho kv Hin).
Qed.

Section Results.
Variable P : trait_result -> Prop.
Variables (th : Q * Q) (lang : string) (g : genotype_map).
(** The property holds of every scored trait, with or without group name. *)
Definition trait_ok (ti : trait_info) : Prop :=
  forall n, P (calculate_trait_score th lang n ti g) /\
            forall gn, P (set_group_name (calculate_trait_score th lang n ti g) gn).

Lemma process_group_all (grp : group) :
  (forall ti, In ti (flat_map node_trait_infos (group_traits grp)) -> trait_ok ti) ->
  opt_all P (process_group th lang grp g).
Proof.
  intro Hti. unfold process_group.
  apply fold_left_inv; [|simpl; constructor].
  intros node acc Hnode Hacc.
  assert (Hn : forall ti, In ti (node_trait_infos node) -> trait_ok ti)
    by (intros ti Hin; apply Hti, in_flat_map; exists node; split; assumption).
  assert (Hadd : forall ti acc', In ti (node_trait_infos node) -> opt_all P acc' ->
                   opt_all P (add_group_trait th lang
                                (get_default "Unknown" (group_name grp)) g acc' ti)).
  { intros ti acc' Hin Hacc'. unfold add_group_trait.
    destruct acc' as [r|]; [|exact I]. destruct (ti_name ti) as [n|]; [|exact I].
    apply py_setitem_forall; [exact Hacc'|]. apply (Hn ti Hin n). }
  unfold process_node, node_trait_infos in *.
  destruct (subtraits node) as [subs|].
  - apply fold_left_inv; [|exact Hacc].
    intros ti acc' Hin Hacc'. apply Hadd; assumption.
  - destruct (variants (node_info node)); [|exact Hacc].
    apply Hadd; [left; reflexivity | exact Hacc].
Qed.
End Results.

Lemma calculate_score_all (P : trait_result -> Prop) (self : scorer)
    (g : genotype_map) (res : list (string * trait_result)) :
  (forall ti, In ti (schema_trait_infos (sc_schema self)) ->
     trait_ok P (thresholds self) (language self) g ti) ->
  calculate_score self g = Some res ->
  Forall (fun kv => P (snd kv)) res.
Proof.
  intros Hti Hres. unfold calculate_score, schema_trait_infos in *.
  destruct (taxonomy (sc_schema self)) as [tops|].
  - change (opt_all P (Some res)). rewrite <- Hres.
    apply fold_left_inv; [|simpl; constructor].
    intros grp acc Hin Hacc.
    pose proof (process_group_all P (thresholds self) (language self) g grp
                  (fun ti H => Hti ti (proj2 (in_flat_map _ _ _) (ex_intro _ grp (conj Hin H)))))
      as Hg.
    destruct acc as [r|]; [|exact I].
    destruct (process_group (thresholds self) (language self) grp g) as [gr|];
      [|exact I].
    apply py_update_forall; assumption.
  - injection Hres as <-.
    apply (fold_left_inv (fun acc => Forall (fun kv => P (snd kv)) acc));
      [|constructor].
    intros nti acc Hin Hacc. apply py_setitem_forall; [exact Hacc|].
    apply (Hti (snd nti) (in_map snd _ _ Hin) (fst nti)).
Qed.

(** C2 (corrected): when every variant of the schema is well scaled (weight
    used >= 0 and, in point-map mode, every genotype_points value in
    [[0, 2]]), every trait result of [calculate_score] has
    [0 <= percentage <= 100] and [0 <= score <= max_possible_score]. *)
Theorem calculate_score_bounds (self : scorer) (g : genotype_map)
    (res : list (string * trait_result))
    (Hwf : forall ti, In ti (schema_trait_infos (sc_schema self)) ->
           forall v, In v (get_default [] (variants ti)) -> well_scaled v)
    (Hres : calculate_score self g = Some res) :
  forall n r, In (n, r) res ->
  0 <= percentage r <= 100 /\ 0 <= score r <= max_possible_score r.
Proof.
  intros n r Hin.
  pose proof (calculate_score_all
                (fun r => 0 <= percentage r <= 100 /\ 0 <= score r <= max_possible_score r)
                self g res) as H.
  assert (Hall : Forall (fun kv => 0 <= percentage (snd kv) <= 100 /\
                                   0 <= score (snd kv) <= max_possible_score (snd kv)) res).
  { apply H; [|exact Hres].
    intros ti Hti nm.
    assert (Hv : Forall well_scaled (get_default [] (variants ti)))
      by (apply Forall_forall; exact (Hwf ti Hti)).
    pose proof (trait_bounds (thresholds self) (language self) nm ti g Hv) as Hb.
    split; [exact Hb|]. intro gn. exact Hb. }
  rewrite Forall_forall in Hall. exact (Hall (n, r) Hin).
Qed.

Lemma calculate_score_bounds_witness :
  (forall ti, In ti (schema_trait_infos (sc_schema (one_variant_scorer "risk_up"))) ->
   forall v, In v (get_default [] (variants ti)) -> well_scaled v) /\
  calculate_score (one_variant_scorer "risk_up") [("rs1", "AA")] =
    Some [("T", match one_trait "risk_up" [("rs1", "AA")] with
                | Some r => r
                | None => calculate_trait_score default_thresholds "en" "T"
                            (TraitInfo None None None) []
                end)] /\
  (forall n r, In (n, r) [("T", match one_trait "risk_up" [("rs1", "AA")] with
                                | Some r => r
                                | None => calculate_trait_score default_thresholds "en" "T"
                                            (TraitInfo None None None) []
                                end)] ->
   0 <= percentage r <= 100 /\ 0 <= score r <= max_possible_score r).
Proof.
  assert (Hwf : forall ti, In ti (schema_trait_infos (sc_schema (one_variant_scorer "risk_up"))) ->
                forall v, In v (get_default [] (variants ti)) -> well_scaled v).
  { simpl. intros ti [<-|[]] v [<-|[]]. unfold well_scaled. simpl. lra. }
  assert (Hres : calculate_score (one_variant_scorer "risk_up") [("rs1", "AA")] =
    Some [("T", match one_trait "risk_up" [("rs1", "AA")] with
                | Some r => r
                | None => calculate_trait_score default_thresholds "en" "T"
                            (TraitInfo None None None) []
                end)]) by (vm_compute; reflexivity).
  split; [exact Hwf|]. split; [exact Hres|].
  exact (calculate_score_bounds _ _ _ Hwf Hres).
Defined.

(** C2 counterexample: genotype_points {"2": 3} with risk_up and "AA"
    gives score 4.5 > max 3 and percentage 150. *)
Lemma percentage_above_100_counterexample :
  exists res n r,
    calculate_score pm_scorer [("rs1", "AA")] = Some res /\ In (n, r) res /\
    percentage r == 150 /\ score r == 9 # 2 /\ max_possible_score r == 3 /\
    ~ (0 <= percentage r <= 100 /\ 0 <= score r <= max_possible_score r).
Proof.
  do 3 eexists. split; [vm_compute; reflexivity|].
  split; [left; reflexivity|].
  vm_compute. split; [reflexivity|]. split; [reflexivity|]. split; [reflexivity|].
  intros [[_ H] _]. apply H. reflexivity.
Qed.

(** ** The object store: frame and refinement lemmas *)

Module HeapFacts.
Import Heap.

(** [st'] only allocated: what existed below [next st] is unchanged. *)
Definition grows (st st' : store) : Prop :=
  (next st <= next st')%nat /\ forall x, (x < next st)%nat -> mem st' x = mem st x.

Lemma grows_trans (a b c : store) : grows a b -> grows b c -> grows a c.
Proof.
  intros [Hn1 H1] [Hn2 H2]. split; [lia|].
  intros x Hx. rewrite H2 by lia. apply H1. exact Hx.
Qed.

Lemma upd_eq (m : loc -> option obj) (l : loc) (o : obj) : upd m l o l = Some o.
Proof. unfold upd. rewrite Nat.eqb_refl. reflexivity. Qed.

Lemma upd_neq (m : loc -> option obj) (l x : loc) (o : obj) :
  x <> l -> upd m l o x = m x.
Proof. intro H. unfold upd. apply Nat.eqb_neq in H. rewrite H. reflexivity. Qed.

Lemma wf_some (st : store) (x : loc) (o : obj) :
  store_wf st -> mem st x = Some o -> (x < next st)%nat.
Proof.
  intros Hwf Hx. destruct (Nat.lt_ge_cases x (next st)) as [H|H]; [exact H|].
  rewrite (Hwf x H) in Hx. discriminate.
Qed.

Lemma alloc_wf (st : store) (o : obj) :
  store_wf st ->
  store_wf {| next := S (next st); mem := upd (mem st) (next st) o |} /\
  grows st {| next := S (next st); mem := upd (mem st) (next st) o |}.
Proof.
  intro Hwf. split.
  - intros x Hx. simpl in *. rewrite upd_neq by lia. apply Hwf. lia.
  - split; simpl; [lia|]. intros x Hx. apply upd_neq. lia.
Qed.

Lemma store_obj_wf (st : store) (l : loc) (o : obj) :
  store_wf st -> (l < next st)%nat ->
  store_wf {| next := next st; mem := upd (mem st) l o |}.
Proof.
  intros Hwf Hl x Hx. simpl in *. rewrite upd_neq by lia. apply Hwf. exact Hx.
Qed.

Lemma appends_spec (dl : loc) (ds : list detail) :
  forall st xs, mem st dl = Some (OList xs) ->
  exists st', iterM (fun d => list_append dl (VDetail d)) ds st = Some (tt, st') /\
    next st' = next st /\ mem st' dl = Some (OList (xs ++ map VDetail ds)) /\
    forall x, x <> dl -> mem st' x = mem st x.
Proof.
  induction ds as [|d ds IH]; intros st xs Hdl.
  - exists st. rewrite app_nil_r. repeat split; auto.
  - cbn [iterM]. unfold bind at 1, list_append, bind at 1, load. rewrite Hdl.
    unfold store_obj. rewrite Hdl.
    destruct (IH {| next := next st; mem := upd (mem st) dl (OList (xs ++ [VDetail d])) |}
                 (xs ++ [VDetail d]) (upd_eq _ _ _)) as [st' [H1 [H2 [H3 H4]]]].
    exists st'. split; [exact H1|]. split; [exact H2|]. split.
    + rewrite H3, <- app_assoc. reflexivity.
    + intros x Hx. rewrite H4 by exact Hx. simpl. apply upd_neq. exact Hx.
Qed.

(** [trait_h] allocates the details list [dl] and the result dict [r]. *)
Lemma trait_h_spec (th : Q * Q) (lang name : string) (ti : trait_info)
    (g : genotype_map) (st : store) :
  store_wf st ->
  let tr := calculate_trait_score th lang name ti g in
  exists r dl st', trait_h th lang name ti g st = Some (r, st') /\
    store_wf st' /\ grows st st' /\
    (next st <= dl)%nat /\ (dl < r)%nat /\ (r < next st')%nat /\
    mem st' r = Some (ODict (result_fields tr dl)) /\
    mem st' dl = Some (OList (map VDetail (details tr))).
Proof.
  intros Hwf tr.
  set (sta := {| next := S (next st); mem := upd (mem st) (next st) (OList []) |}).
  destruct (alloc_wf st (OList []) Hwf) as [Hwfa Hga].
  destruct (appends_spec (next st) (details tr) sta [] (upd_eq _ _ _))
    as [stb [Happ [Hnb [Hdlb Hob]]]].
  exists (next stb), (next st),
    {| next := S (next stb); mem := upd (mem stb) (next stb) (ODict (result_fields tr (next st))) |}.
  unfold trait_h. fold tr. unfold bind at 1. cbn [alloc].
  fold sta. unfold bind at 1. rewrite Happ. cbn [alloc].
  split; [reflexivity|].
  assert (Hwfb : store_wf stb).
  { intros x Hx. rewrite Hob by (simpl in Hnb; lia). apply Hwfa. simpl in *. lia. }
  destruct (alloc_wf stb (ODict (result_fields tr (next st))) Hwfb) as [Hwfc Hgc].
  split; [exact Hwfc|].
  split.
  - apply (grows_trans st stb); [|exact Hgc].
    simpl in Hnb. split; [lia|]. intros x Hx.
    rewrite Hob by lia. simpl. apply upd_neq. lia.
  - simpl in Hnb. simpl. rewrite Hnb.
    split; [lia|]. split; [lia|]. split; [lia|]. split.
    + apply upd_eq.
    + rewrite upd_neq by lia. rewrite Hdlb. reflexivity.
Qed.

(** An entry [name -> ref r] of a results dict holds the result [e]:
    [r] and its details list [dl] live in [(lo, n)]. *)
Definition entry_ok (h : loc -> option obj) (lo n : loc)
    (kv : string * pyval) (e : string * trait_result) : Prop :=
  fst kv = fst e /\
  exists r dl, snd kv = VRef r /\ (lo < r < n)%nat /\ (lo < dl < n)%nat /\ r <> dl /\
    h r = Some (ODict (result_fields (snd e) dl)) /\
    h dl = Some (OList (map VDetail (details (snd e)))).

Definition dict_repr (h : loc -> option obj) (l lo n : loc)
    (E : list (string * trait_result)) : Prop :=
  exists kvs, h l = Some (ODict kvs) /\ Forall2 (entry_ok h lo n) kvs E.

Lemma entry_ok_frame (h h' : loc -> option obj) (lo n : loc) kv e :
  (forall x, (lo < x < n)%nat -> h' x = h x) ->
  entry_ok h lo n kv e -> entry_ok h' lo n kv e.
Proof.
  intros Hfr [Hk [r [dl [Hv [Hr [Hdl [Hne [H1 H2]]]]]]]].
  split; [exact Hk|]. exists r, dl.
  rewrite (Hfr r Hr), (Hfr dl Hdl). repeat split; auto; lia.
Qed.

Lemma entry_ok_mono (h : loc -> option obj) (lo n lo' n' : loc) kv e :
  (lo' <= lo)%nat -> (n <= n')%nat ->
  entry_ok h lo n kv e -> entry_ok h lo' n' kv e.
Proof.
  intros H1 H2 [Hk [r [dl [Hv [Hr [Hdl [Hne [Hr' Hdl']]]]]]]].
  split; [exact Hk|]. exists r, dl. repeat split; auto; lia.
Qed.

Lemma Forall2_entry_frame (h h' : loc -> option obj) (lo n lo' n' : loc) kvs E :
  (lo' <= lo)%nat -> (n <= n')%nat ->
  (forall x, (lo < x < n)%nat -> h' x = h x) ->
  Forall2 (entry_ok h lo n) kvs E -> Forall2 (entry_ok h' lo' n') kvs E.
Proof.
  intros H1 H2 Hfr. apply Forall2_impl.
  intros kv e He. apply (entry_ok_mono h' lo n); [exact H1|exact H2|].
  apply (entry_ok_frame h); [exact Hfr|exact He].
Qed.

Lemma Forall2_setitem {A B} (R : string * A -> string * B -> Prop)
    (HR : forall kv e, R kv e -> fst kv = fst e)
    (kvs : list (string * A)) (E : list (string * B)) (k : string) (v : A) (e : B) :
  Forall2 R kvs E -> R (k, v) (k, e) ->
  Forall2 R (py_setitem kvs k v) (py_setitem E k e).
Proof.
  intros HF Hn. induction HF as [|[k1 v1] [k2 e2] kvs E Hh Ht IH]; simpl.
  - constructor; [exact Hn|constructor].
  - pose proof (HR _ _ Hh) as Hk. simpl in Hk. subst k2.
    destruct (String.eqb k1 k); constructor; auto.
Qed.

Lemma Forall2_update {A B} (R : string * A -> string * B -> Prop)
    (HR : forall kv e, R kv e -> fst kv = fst e)
    (kvs o : list (string * A)) (E O : list (string * B)) :
  Forall2 R kvs E -> Forall2 R o O ->
  Forall2 R (py_update kvs o) (py_update E O).
Proof.
  intros HF HO. unfold py_update. revert kvs E HF.
  induction HO as [|kv e o O Hh Ht IH]; intros kvs E HF; simpl; [exact HF|].
  apply IH. pose proof (HR _ _ Hh) as Hk. rewrite Hk.
  apply (Forall2_setitem R HR); [exact HF|].
  destruct kv as [k v], e as [k' e']. simpl in *. subst k'. exact Hh.
Qed.

Lemma entry_ok_key h lo n kv e : entry_ok h lo n kv e -> fst kv = fst e.
Proof. intros [H _]. exact H. Qed.

Lemma deep_ref (f : nat) (h : loc -> option obj) (l : loc) :
  deep (S f) h (VRef l) =
  match h l with
  | Some (ODict kvs) =>
      option_map DDict
        (all_some (map (fun kv => option_map (pair (fst kv)) (deep f h (snd kv))) kvs))
  | Some (OList xs) => option_map DList (all_some (map (deep f h) xs))
  | Some (OSchema s) => Some (DSchema s)
  | None => None
  end.
Proof. reflexivity. Qed.

Lemma deep_details (h : loc -> option obj) (fuel : nat) (ds : list detail) :
  all_some (map (deep fuel h) (map VDetail ds)) = Some (map DDetail ds).
Proof.
  induction ds as [|d ds IH]; simpl; [reflexivity|].
  rewrite IH. destruct fuel; reflexivity.
Qed.

Lemma deep_result (h : loc -> option obj) (r dl : loc) (tr : trait_result) :
  h r = Some (ODict (result_fields tr dl)) ->
  h dl = Some (OList (map VDetail (details tr))) ->
  deep 3 h (VRef r) = Some (result_dval tr).
Proof.
  intros Hr Hdl.
  assert (Hd : deep 2 h (VRef dl) = Some (DList (map DDetail (details tr)))).
  { rewrite deep_ref, Hdl, deep_details. reflexivity. }
  rewrite deep_ref, Hr. unfold result_fields, result_dval.
  destruct (group_name_field tr); cbn [map app fst snd]; rewrite Hd; reflexivity.
Qed.

Lemma deep_entries (h : loc -> option obj) (lo n : loc) kvs E :
  Forall2 (entry_ok h lo n) kvs E ->
  all_some (map (fun kv => option_map (pair (fst kv)) (deep 3 h (snd kv))) kvs) =
  Some (map (fun kv => (fst kv, result_dval (snd kv))) E).
Proof.
  intro HF. induction HF as [|kv e kvs E [Hk [r [dl [Hv [_ [_ [_ [Hr Hdl]]]]]]]] Ht IH];
    cbn [map all_some]; [reflexivity|].
  rewrite Hv, (deep_result h r dl (snd e) Hr Hdl), IH. cbn [option_map].
  rewrite Hk. reflexivity.
Qed.

Lemma results_value_repr (h : loc -> option obj) (l lo n : loc) E :
  dict_repr h l lo n E -> results_value h l = Some (results_dval E).
Proof.
  intros [kvs [Hl HF]]. unfold results_value. rewrite deep_ref, Hl.
  rewrite (deep_entries h lo n kvs E HF). reflexivity.
Qed.

Lemma fold_none {A B} (f : option A -> B -> option A) (xs : list B) :
  (forall x, f None x = None) -> fold_left f xs None = None.
Proof.
  intro Hn. induction xs as [|x xs IH]; simpl; [reflexivity|]. rewrite Hn. exact IH.
Qed.

Lemma bind_some {A B} (m : M A) (k : A -> M B) (st : store) (a : A) (st' : store) :
  m st = Some (a, st') -> bind m k st = k a st'.
Proof. intro H. unfold bind. rewrite H. reflexivity. Qed.

Lemma bind_none {A B} (m : M A) (k : A -> M B) (st : store) :
  m st = None -> bind m k st = None.
Proof. intro H. unfold bind. rewrite H. reflexivity. Qed.

(** A [for] loop of the store model refines a pure [fold_left] over
    [option]: both fail together, and on success [Inv] links the two
    accumulators. *)
Lemma iter_refines {A B} (f : option A -> B -> option A) (body : B -> M unit)
    (Inv : A -> store -> Prop)
    (Hnone : forall x, f None x = None)
    (Hstep : forall a x st, Inv a st ->
       match f (Some a) x with
       | Some a' => exists st', body x st = Some (tt, st') /\ Inv a' st'
       | None => body x st = None
       end) :
  forall xs a st, Inv a st ->
  match fold_left f xs (Some a) with
  | Some a' => exists st', iterM body xs st = Some (tt, st') /\ Inv a' st'
  | None => iterM body xs st = None
  end.
Proof.
  induction xs as [|x xs IH]; intros a st HI.
  - exists st. split; [reflexivity|exact HI].
  - cbn [fold_left iterM]. unfold bind.
    specialize (Hstep a x st HI).
    destruct (f (Some a) x) as [a'|] eqn:E.
    + destruct Hstep as [st' [Hb HI']]. rewrite Hb. exact (IH a' st' HI').
    + rewrite (fold_none f xs Hnone), Hstep. reflexivity.
Qed.

(** The same for a loop that cannot fail. *)
Lemma iter_refines_total {A B} (f : A -> B -> A) (body : B -> M unit)
    (Inv : A -> store -> Prop)
    (Hstep : forall a x st, Inv a st ->
       exists st', body x st = Some (tt, st') /\ Inv (f a x) st') :
  forall xs a st, Inv a st ->
  exists st', iterM body xs st = Some (tt, st') /\ Inv (fold_left f xs a) st'.
Proof.
  induction xs as [|x xs IH]; intros a st HI.
  - exists st. split; [reflexivity|exact HI].
  - destruct (Hstep a x st HI) as [st1 [Hb HI1]].
    destruct (IH (f a x) st1 HI1) as [st2 [Hit HI2]].
    exists st2. split; [|exact HI2].
    cbn [iterM]. etransitivity; [apply bind_some; exact Hb|]. exact Hit.
Qed.

(** The results dict at [l = next st0] holds [E]; nothing below [l]
    changed since [st0]. *)
Definition res_inv (st0 : store) (l : loc) (E : list (string * trait_result))
    (st : store) : Prop :=
  store_wf st /\ grows st0 st /\ next st0 = l /\ dict_repr (mem st) l l (next st) E.

Lemma res_inv_init (st : store) :
  store_wf st ->
  res_inv st (next st) []
    {| next := S (next st); mem := upd (mem st) (next st) (ODict []) |}.
Proof.
  intro Hwf. destruct (alloc_wf st (ODict []) Hwf) as [Hw Hg].
  split; [exact Hw|]. split; [exact Hg|]. split; [reflexivity|].
  exists []. split; [apply upd_eq|constructor].
Qed.

(** [results[name] = result] for a result built by [trait_h] above [st]. *)
Lemma setitem_result_step (st0 : store) (l : loc) E (st st1 : store)
    (name : string) (tr : trait_result) (r dl : loc) :
  res_inv st0 l E st -> store_wf st1 -> grows st st1 ->
  (next st <= dl)%nat -> (dl < r)%nat -> (r < next st1)%nat ->
  mem st1 r = Some (ODict (result_fields tr dl)) ->
  mem st1 dl = Some (OList (map VDetail (details tr))) ->
  exists st2, dict_setitem l name (VRef r) st1 = Some (tt, st2) /\
    res_inv st0 l (py_setitem E name tr) st2.
Proof.
  intros [Hwf [Hg0 [Hl [kvs [Hkvs HF]]]]] Hwf1 [Hn1 Hg1] Hdl Hdr Hr Hmr Hmdl.
  pose proof (wf_some st l _ Hwf Hkvs) as Hlt.
  assert (Hkvs1 : mem st1 l = Some (ODict kvs)) by (rewrite Hg1 by exact Hlt; exact Hkvs).
  eexists. unfold dict_setitem, bind at 1, load. rewrite Hkvs1.
  unfold store_obj. rewrite Hkvs1. split; [reflexivity|].
  split; [apply store_obj_wf; [exact Hwf1|lia]|].
  split.
  - destruct Hg0 as [Hn0 Hg0]. split; simpl; [lia|].
    intros x Hx. rewrite upd_neq by lia. rewrite Hg1 by lia. apply Hg0. exact Hx.
  - split; [exact Hl|]. exists (py_setitem kvs name (VRef r)). split; [apply upd_eq|].
    apply (Forall2_setitem _ (entry_ok_key _ l (next st1))).
    + apply (Forall2_entry_frame (mem st) _ l (next st)); simpl; [lia|lia| |exact HF].
      intros x Hx. rewrite upd_neq by lia. apply Hg1. lia.
    + split; [reflexivity|]. exists r, dl. simpl.
      split; [reflexivity|]. split; [lia|]. split; [lia|]. split; [lia|].
      rewrite !upd_neq by lia. split; [exact Hmr|exact Hmdl].
Qed.

Lemma calculate_trait_score_no_group th lang name ti g :
  group_name_field (calculate_trait_score th lang name ti g) = None.
Proof.
  unfold calculate_trait_score.
  destruct (score_variants g (get_default [] (variants ti))) as [[sc mx] ds].
  reflexivity.
Qed.

Lemma result_fields_group (tr : trait_result) (dl : loc) (gname : string) :
  group_name_field tr = None ->
  py_setitem (result_fields tr dl) "group_name" (VStr gname) =
  result_fields (set_group_name tr gname) dl.
Proof. intro H. unfold result_fields. rewrite H. reflexivity. Qed.

(** The flat loop body: [results[trait_name] = _calculate_trait_score(...)]. *)
Lemma flat_step (th : Q * Q) (lang : string) (g : genotype_map)
    (st0 : store) (l : loc) E (st : store) (nti : string * trait_info) :
  res_inv st0 l E st ->
  exists st2,
    (r <- trait_h th lang (fst nti) (snd nti) g ;; dict_setitem l (fst nti) (VRef r)) st
      = Some (tt, st2) /\
    res_inv st0 l
      (py_setitem E (fst nti) (calculate_trait_score th lang (fst nti) (snd nti) g)) st2.
Proof.
  intro HI. pose proof HI as [Hwf _].
  destruct (trait_h_spec th lang (fst nti) (snd nti) g st Hwf)
    as [r [dl [st1 [Ht [Hwf1 [Hg1 [H1 [H2 [H3 [H4 H5]]]]]]]]]].
  destruct (setitem_result_step st0 l E st st1 (fst nti) _ r dl HI Hwf1 Hg1 H1 H2 H3 H4 H5)
    as [st2 [Hs HI2]].
  exists st2. unfold bind at 1. rewrite Ht. split; [exact Hs|exact HI2].
Qed.

(** [add_group_trait_h] refines [add_group_trait]. *)
Lemma group_trait_step (th : Q * Q) (lang gname : string) (g : genotype_map)
    (st0 : store) (l : loc) E (st : store) (ti : trait_info) :
  res_inv st0 l E st ->
  match add_group_trait th lang gname g (Some E) ti with
  | Some E' => exists st2, add_group_trait_h th lang gname g l ti st = Some (tt, st2) /\
                 res_inv st0 l E' st2
  | None => add_group_trait_h th lang gname g l ti st = None
  end.
Proof.
  intro HI. pose proof HI as [Hwf _].
  unfold add_group_trait, add_group_trait_h.
  destruct (ti_name ti) as [n|]; [|reflexivity].
  set (tr := calculate_trait_score th lang n ti g).
  destruct (trait_h_spec th lang n ti g st Hwf)
    as [r [dl [st1 [Ht [Hwf1 [[Hn1 Hg1] [H1 [H2 [H3 [H4 H5]]]]]]]]]].
  fold tr in H4, H5.
  set (st1' := {| next := next st1;
                  mem := upd (mem st1) r (ODict (result_fields (set_group_name tr gname) dl)) |}).
  assert (Hs1 : dict_setitem r "group_name" (VStr gname) st1 = Some (tt, st1')).
  { unfold dict_setitem, bind at 1, load. rewrite H4. unfold store_obj. rewrite H4.
    rewrite result_fields_group by apply calculate_trait_score_no_group. reflexivity. }
  assert (Hwf1' : store_wf st1') by (apply store_obj_wf; [exact Hwf1|exact H3]).
  assert (Hg1' : grows st st1').
  { split; simpl; [lia|]. intros x Hx. rewrite upd_neq by lia. apply Hg1. exact Hx. }
  destruct (setitem_result_step st0 l E st st1' n (set_group_name tr gname) r dl HI
              Hwf1' Hg1' H1 H2 H3 (upd_eq _ _ _))
    as [st2 [Hs HI2]].
  { simpl. rewrite upd_neq by lia. exact H5. }
  exists st2. unfold bind at 1. rewrite Ht. unfold bind at 1. rewrite Hs1.
  split; [exact Hs|exact HI2].
Qed.

Lemma add_group_trait_none th lang gname g ti :
  add_group_trait th lang gname g None ti = None.
Proof. reflexivity. Qed.

Lemma process_node_none th lang gname g node :
  process_node th lang gname g None node = None.
Proof.
  unfold process_node. destruct (subtraits node) as [subs|].
  - apply fold_none. intro x. apply add_group_trait_none.
  - destruct (variants (node_info node)); reflexivity.
Qed.

(** [_process_group] in the store refines [process_group]: its fresh
    dict at [next st] holds the pure result. *)
Lemma process_group_h_spec (th : Q * Q) (lang : string) (grp : group)
    (g : genotype_map) (st : store) :
  store_wf st ->
  match process_group th lang grp g with
  | Some G => exists st', process_group_h th lang grp g st = Some (next st, st') /\
                res_inv st (next st) G st'
  | None => process_group_h th lang grp g st = None
  end.
Proof.
  intro Hwf. set (gname := get_default "Unknown" (group_name grp)).
  assert (Hstep : forall a x st1, res_inv st (next st) a st1 ->
    match process_node th lang gname g (Some a) x with
    | Some a' => exists st', (match subtraits x with
       | Some subs => iterM (add_group_trait_h th lang gname g (next st)) subs
       | None =>
           match variants (node_info x) with
           | Some _ => add_group_trait_h th lang gname g (next st) (node_info x)
           | None => ret tt
           end
       end) st1 = Some (tt, st') /\ res_inv st (next st) a' st'
    | None => (match subtraits x with
       | Some subs => iterM (add_group_trait_h th lang gname g (next st)) subs
       | None =>
           match variants (node_info x) with
           | Some _ => add_group_trait_h th lang gname g (next st) (node_info x)
           | None => ret tt
           end
       end) st1 = None
    end).
  { intros a x st1 HI. unfold process_node. destruct (subtraits x) as [subs|].
    - apply (iter_refines (add_group_trait th lang gname g)
               (add_group_trait_h th lang gname g (next st)) (res_inv st (next st))
               (add_group_trait_none th lang gname g)); [|exact HI].
      intros a0 ti st2 HI2. apply group_trait_step. exact HI2.
    - destruct (variants (node_info x)).
      + apply group_trait_step. exact HI.
      + exists st1. split; [reflexivity|exact HI]. }
  set (body := fun node =>
    match subtraits node with
    | Some subs => iterM (add_group_trait_h th lang gname g (next st)) subs
    | None =>
        match variants (node_info node) with
        | Some _ => add_group_trait_h th lang gname g (next st) (node_info node)
        | None => ret tt
        end
    end).
  pose proof (iter_refines (process_node th lang gname g) body (res_inv st (next st))
                (process_node_none th lang gname g) Hstep (group_traits grp) [] _
                (res_inv_init st Hwf)) as HR.
  unfold process_group, process_group_h. fold gname.
  destruct (fold_left (process_node th lang gname g) (group_traits grp) (Some [])) as [G|].
  - destruct HR as [st' [Hit HI]]. exists st'. split; [|exact HI].
    etransitivity; [apply bind_some; reflexivity|]. cbv beta.
    etransitivity; [apply bind_some; exact Hit|]. reflexivity.
  - etransitivity; [apply bind_some; reflexivity|]. cbv beta.
    apply bind_none. exact HR.
Qed.

(** [results.update(self._process_group(group, genotype_data))]. *)
Lemma update_group_step (th : Q * Q) (lang : string) (g : genotype_map)
    (st0 : store) (l : loc) E (st : store) (grp : group) :
  res_inv st0 l E st ->
  match (match Some E, process_group th lang grp g with
         | Some r, Some gr => Some (py_update r gr)
         | _, _ => None
         end) with
  | Some E' => exists st2,
      (gr <- process_group_h th lang grp g ;; dict_update l gr) st = Some (tt, st2) /\
      res_inv st0 l E' st2
  | None => (gr <- process_group_h th lang grp g ;; dict_update l gr) st = None
  end.
Proof.
  intros [Hwf [Hg0 [Hl [kvs [Hkvs HF]]]]].
  pose proof (wf_some st l _ Hwf Hkvs) as Hlt.
  pose proof (process_group_h_spec th lang grp g st Hwf) as HP.
  destruct (process_group th lang grp g) as [G|].
  - destruct HP as [st1 [Hp [Hwf1 [[Hn1 Hg1] [_ [kvs2 [Hkvs2 HF2]]]]]]].
    assert (Hkvs1 : mem st1 l = Some (ODict kvs)) by (rewrite Hg1 by exact Hlt; exact Hkvs).
    eexists. unfold bind at 1. rewrite Hp.
    unfold dict_update, bind at 1, load. rewrite Hkvs2.
    unfold bind at 1. rewrite Hkvs1. unfold store_obj. rewrite Hkvs1.
    split; [reflexivity|].
    pose proof (wf_some st1 _ _ Hwf1 Hkvs2) as Hlt2.
    split; [apply store_obj_wf; [exact Hwf1|lia]|].
    split.
    + destruct Hg0 as [Hn0 Hg0]. split; simpl; [lia|].
      intros x Hx. rewrite upd_neq by lia. rewrite Hg1 by lia. apply Hg0. exact Hx.
    + split; [exact Hl|]. exists (py_update kvs kvs2). split; [apply upd_eq|].
      apply (Forall2_update _ (entry_ok_key _ l (next st1))).
      * apply (Forall2_entry_frame (mem st) _ l (next st)); simpl; [lia|lia| |exact HF].
        intros x Hx. rewrite upd_neq by lia. apply Hg1. lia.
      * apply (Forall2_entry_frame (mem st1) _ (next st) (next st1)); simpl;
          [lia|lia| |exact HF2].
        intros x Hx. apply upd_neq. lia.
  - unfold bind at 1. rewrite HP. reflexivity.
Qed.

(** The body of [calculate_score] in the store refines [calculate_score]:
    a fresh results dict at [next st] holds the pure result, and nothing
    that existed before changed. *)
Lemma scoring_h_spec (sc : scorer) (g : genotype_map) (st : store) :
  store_wf st ->
  match calculate_score sc g with
  | Some res => exists st', scoring_h sc g st = Some (next st, st') /\
                  res_inv st (next st) res st'
  | None => scoring_h sc g st = None
  end.
Proof.
  intro Hwf. unfold calculate_score, scoring_h. cbv zeta.
  destruct (taxonomy (sc_schema sc)) as [top|].
  - pose proof (iter_refines
      (fun acc grp => match acc, process_group (thresholds sc) (language sc) grp g with
                      | Some r, Some gr => Some (py_update r gr)
                      | _, _ => None
                      end)
      (fun grp => gr <- process_group_h (thresholds sc) (language sc) grp g ;;
                  dict_update (next st) gr)
      (res_inv st (next st)) (fun x => eq_refl)
      (fun a x st1 HI => update_group_step (thresholds sc) (language sc) g st (next st) a st1 x HI)
      top [] _ (res_inv_init st Hwf)) as HR.
    destruct (fold_left _ top (Some [])) as [res|].
    + destruct HR as [st' [Hit HI]]. exists st'. split; [|exact HI].
      etransitivity; [apply bind_some; reflexivity|]. cbv beta.
      etransitivity; [apply bind_some; exact Hit|]. reflexivity.
    + etransitivity; [apply bind_some; reflexivity|]. cbv beta.
      apply bind_none. exact HR.
  - destruct (iter_refines_total
      (fun res nti => py_setitem res (fst nti)
         (calculate_trait_score (thresholds sc) (language sc) (fst nti) (snd nti) g))
      (fun nti => r <- trait_h (thresholds sc) (language sc) (fst nti) (snd nti) g ;;
                  dict_setitem (next st) (fst nti) (VRef r))
      (res_inv st (next st))
      (fun a x st1 HI => flat_step (thresholds sc) (language sc) g st (next st) a st1 x HI)
      (traits (sc_schema sc)) [] _ (res_inv_init st Hwf)) as [st' [Hit HI]].
    exists st'. split; [|exact HI].
    etransitivity; [apply bind_some; reflexivity|]. cbv beta.
    etransitivity; [apply bind_some; exact Hit|]. reflexivity.
Qed.

(** Case analysis on the reads of [read_inputs] in a hypothesis. *)
Local Ltac split_reads H :=
  repeat (cbn beta iota in H;
    match type of H with
    | context [match mem ?s ?y with _ => _ end] =>
        let E := fresh "E" in destruct (mem s y) eqn:E; try discriminate
    | context [match dict_get ?f ?k with _ => _ end] =>
        let E := fresh "E" in destruct (dict_get f k) eqn:E; try discriminate
    | context [match str_dict ?k with _ => _ end] =>
        let E := fresh "E" in destruct (str_dict k) eqn:E; try discriminate
    | context [match ?t with _ => _ end] => is_var t; destruct t; try discriminate
    end).

(** Reading the inputs allocates and writes nothing. *)
Lemma read_inputs_pure (self gl : loc) (st st' : store) (x : scorer * genotype_map) :
  read_inputs self gl st = Some (x, st') -> st' = st.
Proof.
  unfold read_inputs, bind, load, ret, fail. intro H.
  split_reads H. inversion H. reflexivity.
Qed.

(** The reads only see objects that still exist unchanged in [st1]. *)
Lemma read_inputs_ext (self gl : loc) (st st1 : store) (x : scorer * genotype_map) :
  read_inputs self gl st = Some (x, st) ->
  (forall y o, mem st y = Some o -> mem st1 y = Some o) ->
  read_inputs self gl st1 = Some (x, st1).
Proof.
  unfold read_inputs, bind, load, ret, fail. intros H Hext.
  split_reads H. inversion H. subst x. clear H.
  repeat (cbn beta iota;
          first [ match goal with E : mem st ?y = Some ?o |- context [mem st1 ?y] =>
                    rewrite (Hext y o E) end
                | match goal with E : ?t = _ |- context [?t] => rewrite E end ]).
  reflexivity.
Qed.

Lemma grows_keep (st st' : store) (x : loc) (o : obj) :
  store_wf st -> grows st st' -> mem st x = Some o -> mem st' x = Some o.
Proof.
  intros Hwf [_ Hg] Hx. rewrite Hg by exact (wf_some st x o Hwf Hx). exact Hx.
Qed.

(** C9: a call of [calculate_score] on the scorer object at [self] and the
    genotype dict at [gl] that returns a results dict [l1] can be repeated:
    the second call on the resulting store also returns, and both results
    read as the same value, the one of the pure [calculate_score] on the
    inputs read; the second call leaves the first result as it was, and
    every object that existed before the first call (the scorer, its
    schema and thresholds, the genotype dict) is unchanged by both calls. *)
Theorem calculate_score_h_repeatable (self gl : loc) (st st1 : store) (l1 : loc)
    (Hwf : store_wf st) (H1 : calculate_score_h self gl st = Some (l1, st1)) :
  exists sc geno res l2 st2,
    read_inputs self gl st = Some ((sc, geno), st) /\
    calculate_score sc geno = Some res /\
    results_value (mem st1) l1 = Some (results_dval res) /\
    calculate_score_h self gl st1 = Some (l2, st2) /\
    results_value (mem st2) l2 = Some (results_dval res) /\
    results_value (mem st2) l1 = Some (results_dval res) /\
    (forall x o, mem st x = Some o -> mem st1 x = Some o /\ mem st2 x = Some o).
Proof.
  unfold calculate_score_h, bind at 1 in H1.
  destruct (read_inputs self gl st) as [[[sc geno] st']|] eqn:R; [|discriminate].
  pose proof (read_inputs_pure self gl st st' _ R) as Hst. subst st'.
  cbn [fst snd] in H1.
  pose proof (scoring_h_spec sc geno st Hwf) as HS.
  destruct (calculate_score sc geno) as [res|] eqn:C; [|congruence].
  destruct HS as [st1' [Hs1 [Hwf1 [Hg1 [_ Hr1]]]]].
  rewrite Hs1 in H1. injection H1 as Hl1 Hst1. subst l1 st1'.
  assert (R1 : read_inputs self gl st1 = Some ((sc, geno), st1)).
  { apply (read_inputs_ext self gl st st1 _ R). intros y o. apply grows_keep; assumption. }
  pose proof (scoring_h_spec sc geno st1 Hwf1) as HS2. rewrite C in HS2.
  destruct HS2 as [st2 [Hs2 [Hwf2 [Hg2 [_ Hr2]]]]].
  exists sc, geno, res, (next st1), st2.
  split; [reflexivity|]. split; [exact C|].
  split; [exact (results_value_repr _ _ _ _ _ Hr1)|].
  split.
  { unfold calculate_score_h. etransitivity; [apply bind_some; exact R1|]. exact Hs2. }
  split; [exact (results_value_repr _ _ _ _ _ Hr2)|].
  split.
  - destruct Hr1 as [kvs [Hkvs HF]].
    apply (results_value_repr _ (next st) (next st) (next st1)).
    exists kvs. split.
    + apply (grows_keep st1 st2); assumption.
    + apply (Forall2_entry_frame (mem st1) _ (next st) (next st1)); [lia|lia| |exact HF].
      intros x Hx. destruct Hg2 as [_ Hg2]. apply Hg2. lia.
  - intros x o Hx. pose proof (grows_keep st st1 x o Hwf Hg1 Hx) as Hx1.
    split; [exact Hx1|]. exact (grows_keep st1 st2 x o Hwf1 Hg2 Hx1).
Qed.

Lemma calculate_score_h_repeatable_witness :
  store_wf HeapSamples.sample_store /\
  exists l1 st1, calculate_score_h 0%nat 3%nat HeapSamples.sample_store = Some (l1, st1) /\
  exists sc geno res l2 st2,
    read_inputs 0%nat 3%nat HeapSamples.sample_store = Some ((sc, geno), HeapSamples.sample_store) /\
    calculate_score sc geno = Some res /\
    results_value (mem st1) l1 = Some (results_dval res) /\
    calculate_score_h 0%nat 3%nat st1 = Some (l2, st2) /\
    results_value (mem st2) l2 = Some (results_dval res) /\
    results_value (mem st2) l1 = Some (results_dval res) /\
    (forall x o, mem HeapSamples.sample_store x = Some o ->
                 mem st1 x = Some o /\ mem st2 x = Some o).
Proof.
  assert (Hwf : store_wf HeapSamples.sample_store).
  { intros x Hx. destruct x as [|[|[|[|x]]]]; simpl in Hx; [lia..|reflexivity]. }
  split; [exact Hwf|].
  eexists. eexists. split; [vm_compute; reflexivity|].
  apply (calculate_score_h_repeatable 0%nat 3%nat HeapSamples.sample_store _ _ Hwf).
  vm_compute. reflexivity.
Defined.

End HeapFacts.


(** * Further properties of the scorer and of its report *)

(** ** Allele order *)

Lemma get_allele_count_reverse (d : string) :
  get_allele_count (reverse_alleles d) = get_allele_count d.
Proof.
  destruct d as [|a [|b [|c t]]]; try reflexivity.
  unfold reverse_alleles, get_allele_count. cbn. rewrite Ascii.eqb_sym. reflexivity.
Qed.

Lemma diploid_missing_reverse (d : string) :
  diploid_missing (Some (reverse_alleles d)) = diploid_missing (Some d).
Proof. destruct d as [|a [|b [|c t]]]; reflexivity. Qed.

Lemma genotype_get_swap (g : genotype_map) (rs : option string) :
  genotype_get (swap_genotypes g) rs = option_map reverse_alleles (genotype_get g rs).
Proof.
  destruct rs as [k|]; [|reflexivity]. unfold genotype_get.
  induction g as [|[k' d] g IH]; simpl; [reflexivity|].
  destruct (String.eqb k' k); [reflexivity|exact IH].
Qed.

Lemma variant_step_swap (g : genotype_map) (sc mx : Q) (ds ds' : list detail)
    (v : variant) :
  acc_score (variant_step (swap_genotypes g) (sc, mx, ds') v) =
    acc_score (variant_step g (sc, mx, ds) v) /\
  acc_max (variant_step (swap_genotypes g) (sc, mx, ds') v) =
    acc_max (variant_step g (sc, mx, ds) v).
Proof.
  unfold variant_step. rewrite genotype_get_swap.
  destruct (String.eqb (direction_of v) "neutral"); [split; reflexivity|].
  destruct (point_mode v) as [[w pm]|];
    destruct (genotype_get g (rsid v)) as [d|]; cbn [option_map];
    try (split; reflexivity);
    rewrite diploid_missing_reverse; destruct (diploid_missing (Some d));
    try (split; reflexivity);
    rewrite get_allele_count_reverse; split; reflexivity.
Qed.

Lemma fold_swap (g : genotype_map) (vs : list variant) :
  forall a a', acc_score a' = acc_score a -> acc_max a' = acc_max a ->
  acc_score (fold_left (variant_step (swap_genotypes g)) vs a') =
    acc_score (fold_left (variant_step g) vs a) /\
  acc_max (fold_left (variant_step (swap_genotypes g)) vs a') =
    acc_max (fold_left (variant_step g) vs a).
Proof.
  induction vs as [|v vs IH]; intros [[sc mx] ds] [[sc' mx'] ds'] Hs Hm;
    [split; assumption|].
  unfold acc_score, acc_max in Hs, Hm. cbn in Hs, Hm. subst sc' mx'.
  cbn [fold_left]. destruct (variant_step_swap g sc mx ds ds' v) as [H1 H2].
  apply IH; assumption.
Qed.

(** X1: writing the two alleles of every genotype in the other order
    (["AG"] as ["GA"]) changes none of the numbers of a trait result: score,
    max_possible_score, percentage, normalized_score and classification. *)
Theorem trait_score_allele_order (th : Q * Q) (lang name : string)
    (ti : trait_info) (g : genotype_map) :
  let r := calculate_trait_score th lang name ti g in
  let r' := calculate_trait_score th lang name ti (swap_genotypes g) in
  score r' = score r /\ max_possible_score r' = max_possible_score r /\
  percentage r' = percentage r /\ normalized_score r' = normalized_score r /\
  classification r' = classification r.
Proof.
  cbv zeta. unfold calculate_trait_score, score_variants.
  destruct (fold_swap g (get_default [] (variants ti)) (0, 0, []) (0, 0, [])
              eq_refl eq_refl) as [Hs Hm].
  destruct (fold_left (variant_step g) (get_default [] (variants ti)) (0, 0, []))
    as [[sc mx] ds].
  destruct (fold_left (variant_step (swap_genotypes g)) (get_default [] (variants ti))
              (0, 0, [])) as [[sc' mx'] ds'].
  unfold acc_score, acc_max in Hs, Hm. cbn in Hs, Hm. subst sc' mx'.
  repeat split; reflexivity.
Qed.

(** ** Thresholds set in the wrong order *)

(** X2: [set_thresholds] takes any pair; when the high threshold is not
    above the low one, classification never gives the medium label: below
    the low threshold it is the low label, otherwise the high label. *)
Theorem classify_misordered_thresholds (self : scorer) (lo hi p : Q)
    (Hord : hi <= lo) :
  classify_risk (thresholds (set_thresholds self lo hi)) (language self) p =
  risk_label (language self) (if qltb p lo then RLow else RHigh).
Proof.
  unfold classify_risk, classify_level. cbn [thresholds set_thresholds fst snd].
  destruct (qltb p lo) eqn:E; [reflexivity|].
  apply qltb_false in E.
  assert (Hhi : qltb p hi = false) by (apply qltb_false; lra).
  rewrite Hhi. reflexivity.
Qed.

Lemma classify_misordered_thresholds_witness :
  (33 # 1) <= (66 # 1) /\
  classify_risk (thresholds (set_thresholds (one_variant_scorer "risk_up") (66 # 1) (33 # 1)))
    (language (one_variant_scorer "risk_up")) (50 # 1) =
  risk_label (language (one_variant_scorer "risk_up"))
    (if qltb (50 # 1) (66 # 1) then RLow else RHigh).
Proof.
  split; [unfold Qle; simpl; lia|].
  apply classify_misordered_thresholds. unfold Qle; simpl; lia.
Defined.

(** ** Setter sequences *)

(** X3: starting from a scorer whose language is a key of [RISK_LABELS]
    (["en"] or ["tr"]), any sequence of [set_thresholds] and [set_language]
    calls leaves the language a key of [RISK_LABELS] (an unknown code is
    ignored) and leaves the schema as it was. *)
Theorem setters_keep_language_supported (self : scorer) (cs : list setter_call)
    (Hlang : In (language self) risk_label_languages) :
  In (language (run_setters self cs)) risk_label_languages /\
  sc_schema (run_setters self cs) = sc_schema self.
Proof.
  unfold run_setters. revert self Hlang.
  induction cs as [|c cs IH]; intros self Hlang; [split; [exact Hlang|reflexivity]|].
  cbn [fold_left].
  assert (Hc : In (language (run_setter self c)) risk_label_languages /\
               sc_schema (run_setter self c) = sc_schema self).
  { destruct c as [lo hi|l]; cbn [run_setter].
    - split; [exact Hlang|reflexivity].
    - unfold set_language. destruct (existsb (String.eqb l) risk_label_languages) eqn:E.
      + apply existsb_exists in E. destruct E as [x [Hx Hl]].
        apply String.eqb_eq in Hl. subst x. split; [exact Hx|reflexivity].
      + split; [exact Hlang|reflexivity]. }
  destruct Hc as [Hc1 Hc2].
  destruct (IH (run_setter self c) Hc1) as [H1 H2].
  split; [exact H1|]. rewrite H2. exact Hc2.
Qed.

Lemma setters_keep_language_supported_witness :
  In (language (one_variant_scorer "risk_up")) risk_label_languages /\
  In (language (run_setters (one_variant_scorer "risk_up")
                 [CallSetLanguage "fr"; CallSetThresholds (25 # 1) (75 # 1);
                  CallSetLanguage "tr"])) risk_label_languages /\
  sc_schema (run_setters (one_variant_scorer "risk_up")
               [CallSetLanguage "fr"; CallSetThresholds (25 # 1) (75 # 1);
                CallSetLanguage "tr"]) = sc_schema (one_variant_scorer "risk_up").
Proof.
  assert (H : In (language (one_variant_scorer "risk_up")) risk_label_languages)
    by (simpl; left; reflexivity).
  split; [exact H|].
  exact (setters_keep_language_supported (one_variant_scorer "risk_up")
           [CallSetLanguage "fr"; CallSetThresholds (25 # 1) (75 # 1);
            CallSetLanguage "tr"] H).
Defined.

(** ** The report summary *)

Lemma three_way_count {A} (a b c : A -> bool) (l : list A) :
  (forall x, In x l ->
     ((if a x then 1 else 0) + (if b x then 1 else 0) + (if c x then 1 else 0) = 1)%nat) ->
  (length (filter a l) + length (filter b l) + length (filter c l) = length l)%nat.
Proof.
  induction l as [|x l IH]; intro H; [reflexivity|].
  cbn [filter length].
  specialize (IH (fun y Hy => H y (or_intror Hy))).
  specialize (H x (or_introl eq_refl)).
  destruct (a x), (b x), (c x); cbn [length] in *; lia.
Qed.

(** X4: in the summary of [create_comprehensive_json], the low, medium and
    high counts (percentage <= 33, 33 < percentage <= 66, percentage > 66)
    add up to total_traits: every non-informational trait is counted in
    exactly one of them. *)
Theorem summary_counts_partition (results : list (string * trait_result)) :
  let s := summary_of results in
  (low_risk_count s + medium_risk_count s + high_risk_count s = total_traits s)%nat.
Proof.
  cbv zeta. unfold summary_of, count_if. cbn [low_risk_count medium_risk_count
    high_risk_count total_traits].
  apply three_way_count. intros [n r] _. cbn [snd]. unfold qltb.
  destruct (Qle_bool (percentage r) 33) eqn:E33.
  - assert (E66 : Qle_bool (percentage r) 66 = true).
    { apply Qle_bool_iff. apply Qle_bool_iff in E33.
      apply (Qle_trans _ _ _ E33). unfold Qle; simpl; lia. }
    rewrite E66. reflexivity.
  - cbn [negb andb]. destruct (Qle_bool (percentage r) 66); reflexivity.
Qed.

(** ** Grouping in the report *)

Lemma setitem_bucket_total (gd : list (string * list (string * trait_result)))
    (k : string) (v : list (string * trait_result)) :
  (bucket_total (py_setitem gd k v) + get_default 0 (option_map (@length _) (dict_get gd k))
   = bucket_total gd + length v)%nat.
Proof.
  unfold bucket_total.
  induction gd as [|[k' b] gd IH]; cbn [py_setitem dict_get map list_sum fst snd].
  - simpl. lia.
  - destruct (String.eqb k' k); cbn [map fst snd option_map get_default];
      simpl list_sum; lia.
Qed.

Lemma dict_get_setitem_same {A} (kvs : list (string * A)) (k : string) (v : A) :
  dict_get (py_setitem kvs k v) k = Some v.
Proof.
  induction kvs as [|[k' v'] t IH]; cbn [py_setitem dict_get].
  - rewrite String.eqb_refl. reflexivity.
  - destruct (String.eqb k' k) eqn:E; cbn [dict_get].
    + rewrite String.eqb_refl. reflexivity.
    + rewrite E. exact IH.
Qed.

Lemma py_setitem_forall_kv {A} (P : string * A -> Prop) (l : list (string * A))
    (k : string) (v : A) :
  Forall P l -> P (k, v) -> Forall P (py_setitem l k v).
Proof.
  induction l as [|[k' v'] t IH]; intros Hl Hv; cbn [py_setitem].
  - constructor; [exact Hv | constructor].
  - inversion Hl as [|x y Hx Ht]; subst.
    destruct (String.eqb k' k); constructor; auto.
Qed.

Lemma py_update_forall_kv {A} (P : string * A -> Prop) (l o : list (string * A)) :
  Forall P l -> Forall P o -> Forall P (py_update l o).
Proof.
  intros Hl Ho. unfold py_update.
  apply (fold_left_inv (Forall P)); [|exact Hl].
  intros [k v] acc Hin Hacc. apply py_setitem_forall_kv; [exact Hacc|].
  rewrite Forall_forall in Ho. exact (Ho _ Hin).
Qed.

Lemma add_to_group_ok (gd : list (string * list (string * trait_result)))
    (kv : string * trait_result) :
  Forall bucket_ok gd ->
  Forall bucket_ok (add_to_group gd kv) /\
  bucket_total (add_to_group gd kv) = S (bucket_total gd).
Proof.
  intro Hok. unfold add_to_group.
  set (gn := group_of (snd kv)).
  set (gd1 := match dict_get gd gn with Some _ => gd | None => py_setitem gd gn [] end).
  assert (Hgd1 : Forall bucket_ok gd1 /\ bucket_total gd1 = bucket_total gd /\
                 exists l, dict_get gd1 gn = Some l).
  { unfold gd1. destruct (dict_get gd gn) as [l|] eqn:E.
    - split; [exact Hok|]. split; [reflexivity|]. exists l. exact E.
    - split; [apply py_setitem_forall_kv; [exact Hok|constructor]|].
      split.
      + pose proof (setitem_bucket_total gd gn []) as H. rewrite E in H.
        cbn in H. lia.
      + exists []. apply dict_get_setitem_same. }
  destruct Hgd1 as [Hok1 [Htot1 [l Hl]]]. rewrite Hl. cbn [get_default].
  split.
  - apply py_setitem_forall_kv; [exact Hok1|]. unfold bucket_ok. cbn [fst snd].
    apply Forall_app. split.
    + apply dict_get_in in Hl. rewrite Forall_forall in Hok1.
      exact (Hok1 _ Hl).
    + constructor; [reflexivity|constructor].
  - pose proof (setitem_bucket_total gd1 gn (l ++ [kv])) as H. rewrite Hl in H.
    cbn [option_map get_default] in H. rewrite length_app in H. cbn [length] in H.
    lia.
Qed.

(** X5: [groups_data] of [create_comprehensive_json] puts every
    non-informational trait into exactly one group list: the lists hold
    total_traits entries in all, and each entry sits in the list of its own
    group_name (['Unknown'] when it has none). *)
Theorem groups_data_partition (results : list (string * trait_result)) :
  bucket_total (groups_data results) = total_traits (summary_of results) /\
  Forall (fun b => Forall (fun kv => group_of (snd kv) = fst b) (snd b))
    (groups_data results).
Proof.
  unfold groups_data, summary_of. cbn [total_traits].
  assert (H : forall l gd, Forall bucket_ok gd ->
            Forall bucket_ok (fold_left add_to_group l gd) /\
            bucket_total (fold_left add_to_group l gd) = (bucket_total gd + length l)%nat).
  { induction l as [|kv l IH]; intros gd Hgd; cbn [fold_left length].
    - split; [exact Hgd|lia].
    - destruct (add_to_group_ok gd kv Hgd) as [H1 H2].
      destruct (IH _ H1) as [H3 H4]. split; [exact H3|lia]. }
  destruct (H (filter_informational results) [] (Forall_nil _)) as [H1 H2].
  split; [rewrite H2; reflexivity|exact H1].
Qed.

(** ** When [calculate_score] raises *)

Lemma fold_opt_none_iff {A B} (f : option A -> B -> option A) (P : B -> Prop)
    (Hnone : forall x, f None x = None)
    (Hstep : forall a x, f (Some a) x = None <-> P x) :
  forall xs a, fold_left f xs (Some a) = None <-> exists x, In x xs /\ P x.
Proof.
  induction xs as [|x xs IH]; intro a; cbn [fold_left].
  - split; [discriminate|]. intros [x [[] _]].
  - destruct (f (Some a) x) as [a'|] eqn:E.
    + rewrite IH. split.
      * intros [y [Hy Py]]. exists y. split; [right; exact Hy|exact Py].
      * intros [y [[<-|Hy] Py]].
        -- apply (proj2 (Hstep a x)) in Py. congruence.
        -- exists y. split; assumption.
    + rewrite (HeapFacts.fold_none f xs Hnone). split; [|reflexivity].
      intros _. exists x. split; [left; reflexivity|]. apply (proj1 (Hstep a x)). exact E.
Qed.

Lemma add_group_trait_none_iff th lang gname g r ti :
  add_group_trait th lang gname g (Some r) ti = None <-> ti_name ti = None.
Proof.
  unfold add_group_trait. destruct (ti_name ti); split; congruence.
Qed.

Lemma process_node_none_iff th lang gname g r node :
  process_node th lang gname g (Some r) node = None <->
  exists ti, In ti (node_trait_infos node) /\ ti_name ti = None.
Proof.
  unfold process_node, node_trait_infos. destruct (subtraits node) as [subs|].
  - apply (fold_opt_none_iff _ (fun ti => ti_name ti = None)).
    + intro x. reflexivity.
    + intros a x. apply add_group_trait_none_iff.
  - destruct (variants (node_info node)).
    + rewrite add_group_trait_none_iff. split.
      * intro H. exists (node_info node). split; [left; reflexivity|exact H].
      * intros [ti [[<-|[]] H]]. exact H.
    + split; [discriminate|]. intros [ti [[] _]].
Qed.

Lemma process_group_none_iff th lang grp g :
  process_group th lang grp g = None <->
  exists ti, In ti (flat_map node_trait_infos (group_traits grp)) /\ ti_name ti = None.
Proof.
  unfold process_group.
  rewrite (fold_opt_none_iff _ (fun node => exists ti, In ti (node_trait_infos node) /\
                                                       ti_name ti = None)).
  - split.
    + intros [node [Hn [ti [Hti Hnm]]]]. exists ti. split; [|exact Hnm].
      apply in_flat_map. exists node. split; assumption.
    + intros [ti [Hti Hnm]]. apply in_flat_map in Hti. destruct Hti as [node [Hn Hti]].
      exists node. split; [exact Hn|]. exists ti. split; assumption.
  - intro x. apply HeapFacts.process_node_none.
  - intros a x. apply process_node_none_iff.
Qed.

(** X6: [calculate_score] raises (a [KeyError] on ['name']) exactly when the
    schema has a taxonomy and one of the trait definitions it scores (a
    subtrait, or a direct trait with variants) has no name; a flat schema
    never makes it raise. *)
Theorem calculate_score_fails_iff (self : scorer) (g : genotype_map) :
  calculate_score self g = None <->
  taxonomy (sc_schema self) <> None /\
  exists ti, In ti (schema_trait_infos (sc_schema self)) /\ ti_name ti = None.
Proof.
  unfold calculate_score, schema_trait_infos. cbv zeta.
  destruct (taxonomy (sc_schema self)) as [tg|].
  - rewrite (fold_opt_none_iff _ (fun grp => exists ti,
               In ti (flat_map node_trait_infos (group_traits grp)) /\ ti_name ti = None)).
    + split.
      * intros [grp [Hg [ti [Hti Hnm]]]]. split; [discriminate|].
        exists ti. split; [|exact Hnm]. apply in_flat_map. exists grp. split; assumption.
      * intros [_ [ti [Hti Hnm]]]. apply in_flat_map in Hti.
        destruct Hti as [grp [Hg Hti]]. exists grp. split; [exact Hg|].
        exists ti. split; assumption.
    + intro x. reflexivity.
    + intros a x. rewrite <- (process_group_none_iff (thresholds self) (language self) x g).
      destruct (process_group (thresholds self) (language self) x g); cbn; split; congruence.
  - split; [discriminate|]. intros [H _]. exfalso. apply H. reflexivity.
Qed.

(** ** The result of a flat schema *)

Lemma py_setitem_fresh {A} (l : list (string * A)) (k : string) (v : A) :
  ~ In k (map fst l) -> py_setitem l k v = l ++ [(k, v)].
Proof.
  induction l as [|[k' v'] t IH]; intro Hk; cbn [py_setitem]; [reflexivity|].
  destruct (String.eqb k' k) eqn:E.
  - apply String.eqb_eq in E. subst k'. exfalso. apply Hk. left. reflexivity.
  - rewrite IH; [reflexivity|]. intro H. apply Hk. right. exact H.
Qed.

Lemma flat_fold_result (th : Q * Q) (lang : string) (g : genotype_map)
    (ts acc : list (string * trait_info)) :
  forall res, NoDup (map fst res ++ map fst ts) ->
  fold_left (fun res nti => py_setitem res (fst nti)
               (calculate_trait_score th lang (fst nti) (snd nti) g)) ts res =
  res ++ map (fun nt => (fst nt, calculate_trait_score th lang (fst nt) (snd nt) g)) ts.
Proof.
  clear acc. induction ts as [|nt ts IH]; intros res Hnd; cbn [fold_left map].
  - rewrite app_nil_r. reflexivity.
  - rewrite py_setitem_fresh.
    + rewrite IH.
      * rewrite <- app_assoc. reflexivity.
      * rewrite map_app, <- app_assoc. exact Hnd.
    + intro Hin. cbn [map] in Hnd. apply NoDup_remove_2 in Hnd. apply Hnd.
      apply in_or_app. left. exact Hin.
Qed.

Lemma flat_result (self : scorer) (g : genotype_map) :
  taxonomy (sc_schema self) = None ->
  NoDup (map fst (traits (sc_schema self))) ->
  calculate_score self g =
  Some (map (fun nt => (fst nt, calculate_trait_score (thresholds self) (language self)
                                  (fst nt) (snd nt) g))
            (traits (sc_schema self))).
Proof.
  intros Hflat Hkeys. unfold calculate_score. cbv zeta. rewrite Hflat. f_equal.
  exact (flat_fold_result _ _ g _ [] [] Hkeys).
Qed.

(** X7: for a flat schema whose trait names are distinct (the keys of the
    ['traits'] dict), [calculate_score] returns one entry per trait, in the
    schema's order, keyed by the trait name, holding
    [_calculate_trait_score] of that trait. *)
Theorem flat_calculate_score (self : scorer) (g : genotype_map)
    (Hflat : taxonomy (sc_schema self) = None)
    (Hkeys : NoDup (map fst (traits (sc_schema self)))) :
  calculate_score self g =
  Some (map (fun nt => (fst nt, calculate_trait_score (thresholds self) (language self)
                                  (fst nt) (snd nt) g))
            (traits (sc_schema self))).
Proof. exact (flat_result self g Hflat Hkeys). Qed.

Lemma flat_calculate_score_witness :
  taxonomy (sc_schema two_trait_scorer) = None /\
  NoDup (map fst (traits (sc_schema two_trait_scorer))) /\
  calculate_score two_trait_scorer [("rs1", "AG")] =
  Some (map (fun nt => (fst nt, calculate_trait_score (thresholds two_trait_scorer)
                                  (language two_trait_scorer) (fst nt) (snd nt)
                                  [("rs1", "AG")]))
            (traits (sc_schema two_trait_scorer))).
Proof.
  assert (H1 : taxonomy (sc_schema two_trait_scorer) = None) by reflexivity.
  assert (H2 : NoDup (map fst (traits (sc_schema two_trait_scorer)))).
  { simpl. constructor; [simpl; intros [H|[]]; discriminate H|].
    constructor; [intros []|constructor]. }
  split; [exact H1|]. split; [exact H2|].
  exact (flat_calculate_score two_trait_scorer [("rs1", "AG")] H1 H2).
Defined.

(** ** The result of a taxonomy *)

Lemma fold_left_ext_in {A B} (f f' : A -> B -> A) (l : list B) :
  (forall acc x, In x l -> f acc x = f' acc x) ->
  forall a, fold_left f l a = fold_left f' l a.
Proof.
  induction l as [|x l IH]; intros H a; cbn [fold_left]; [reflexivity|].
  rewrite (H a x (or_introl eq_refl)).
  apply IH. intros acc y Hy. apply H. right. exact Hy.
Qed.

Lemma fold_left_flat_map {A B C} (f : A -> C -> A) (h : B -> list C) (l : list B) :
  forall a, fold_left (fun acc b => fold_left f (h b) acc) l a =
            fold_left f (flat_map h l) a.
Proof.
  induction l as [|b l IH]; intro a; cbn [fold_left flat_map]; [reflexivity|].
  rewrite fold_left_app. apply IH.
Qed.

Lemma process_node_fold th lang gname g acc node :
  process_node th lang gname g acc node =
  fold_left (add_group_trait th lang gname g) (node_trait_infos node) acc.
Proof.
  unfold process_node, node_trait_infos.
  destruct (subtraits node); [reflexivity|].
  destruct (variants (node_info node)); reflexivity.
Qed.

Lemma process_group_fold th lang grp g :
  process_group th lang grp g =
  fold_left (add_group_trait th lang (get_default "Unknown" (group_name grp)) g)
    (flat_map node_trait_infos (group_traits grp)) (Some []).
Proof.
  unfold process_group. rewrite <- fold_left_flat_map.
  apply fold_left_ext_in. intros acc x _. apply process_node_fold.
Qed.

Lemma dict_get_setitem {A} (l : list (string * A)) (k : string) (v : A) (n : string) :
  dict_get (py_setitem l k v) n = if String.eqb k n then Some v else dict_get l n.
Proof.
  induction l as [|[k' v'] t IH]; cbn [py_setitem dict_get]; [reflexivity|].
  destruct (String.eqb k' k) eqn:E; cbn [dict_get].
  - apply String.eqb_eq in E. subst k'.
    destruct (String.eqb k n); reflexivity.
  - rewrite IH. destruct (String.eqb k' n) eqn:E1; [|reflexivity].
    apply String.eqb_eq in E1. subst n.
    rewrite String.eqb_sym, E. reflexivity.
Qed.

Lemma dict_get_not_in {A} (l : list (string * A)) (n : string) :
  ~ In n (map fst l) -> dict_get l n = None.
Proof.
  induction l as [|[k v] t IH]; intro H; cbn [dict_get]; [reflexivity|].
  destruct (String.eqb k n) eqn:E.
  - apply String.eqb_eq in E. subst k. exfalso. apply H. left. reflexivity.
  - apply IH. intro Hin. apply H. right. exact Hin.
Qed.

Lemma keys_setitem {A} (l : list (string * A)) (k : string) (v : A) (x : string) :
  In x (map fst (py_setitem l k v)) <-> x = k \/ In x (map fst l).
Proof.
  induction l as [|[k' v'] t IH]; cbn [py_setitem map fst].
  - cbn. split; [intros [H|[]]; left; symmetry; exact H|intros [H|[]]; left; symmetry; exact H].
  - destruct (String.eqb k' k) eqn:E.
    + apply String.eqb_eq in E. subst k'. cbn [map fst In]. split.
      * intros [H|H]; [left; symmetry; exact H|right; right; exact H].
      * intros [H|[H|H]]; [left; symmetry; exact H|left; exact H|right; exact H].
    + cbn [map fst In]. rewrite IH. tauto.
Qed.

Lemma nodup_setitem {A} (l : list (string * A)) (k : string) (v : A) :
  NoDup (map fst l) -> NoDup (map fst (py_setitem l k v)).
Proof.
  induction l as [|[k' v'] t IH]; intro Hnd; cbn [py_setitem map fst].
  - constructor; [intros []|constructor].
  - inversion Hnd as [|x y Hx Ht]; subst.
    destruct (String.eqb k' k) eqn:E.
    + apply String.eqb_eq in E. subst k'. cbn [map fst]. constructor; assumption.
    + cbn [map fst]. constructor; [|apply IH; exact Ht].
      rewrite keys_setitem. intros [H|H]; [|exact (Hx H)].
      subst k'. rewrite String.eqb_refl in E. discriminate.
Qed.

Lemma py_update_spec {A} (o l : list (string * A)) :
  NoDup (map fst o) -> NoDup (map fst l) ->
  NoDup (map fst (py_update l o)) /\
  forall n, dict_get (py_update l o) n =
            match dict_get o n with Some v => Some v | None => dict_get l n end.
Proof.
  revert l. induction o as [|[k v] o IH]; intros l Ho Hl.
  - split; [exact Hl|]. intro n. reflexivity.
  - inversion Ho as [|x y Hx Ht]; subst.
    change (py_update l ((k, v) :: o)) with (py_update (py_setitem l k v) o).
    destruct (IH (py_setitem l k v) Ht (nodup_setitem l k v Hl)) as [H1 H2].
    split; [exact H1|]. intro n. rewrite H2. cbn [dict_get].
    rewrite dict_get_setitem.
    destruct (String.eqb k n) eqn:E; [|reflexivity].
    apply String.eqb_eq in E. subst n. rewrite (dict_get_not_in o k Hx). reflexivity.
Qed.

Lemma last_named_acc (n : string) (es : list (string * trait_info)) :
  forall acc,
  fold_left (fun acc e => match ti_name (snd e) with
                          | Some m => if String.eqb m n then Some e else acc
                          | None => acc
                          end) es acc =
  match last_named n es with Some p => Some p | None => acc end.
Proof.
  unfold last_named.
  induction es as [|e es IH]; intro acc; cbn [fold_left]; [reflexivity|].
  rewrite (IH (match ti_name (snd e) with
               | Some m => if String.eqb m n then Some e else acc
               | None => acc end)).
  rewrite (IH (match ti_name (snd e) with
               | Some m => if String.eqb m n then Some e else None
               | None => None end)).
  destruct (fold_left _ es None); [reflexivity|].
  destruct (ti_name (snd e)); [destruct (String.eqb s n)|]; reflexivity.
Qed.

Lemma last_named_cons (n : string) (e : string * trait_info) (es : list (string * trait_info)) :
  last_named n (e :: es) =
  match last_named n es with
  | Some p => Some p
  | None => match ti_name (snd e) with
            | Some m => if String.eqb m n then Some e else None
            | None => None
            end
  end.
Proof.
  unfold last_named at 1. cbn [fold_left]. rewrite last_named_acc. reflexivity.
Qed.

Lemma last_named_app (n : string) (es1 es2 : list (string * trait_info)) :
  last_named n (es1 ++ es2) =
  match last_named n es2 with Some p => Some p | None => last_named n es1 end.
Proof.
  unfold last_named at 1. rewrite fold_left_app. rewrite last_named_acc. reflexivity.
Qed.

Lemma fold_add_group_trait th lang gname g (subs : list trait_info) :
  forall r r',
  fold_left (add_group_trait th lang gname g) subs (Some r) = Some r' ->
  NoDup (map fst r) ->
  NoDup (map fst r') /\
  forall n, dict_get r' n =
    match last_named n (map (fun ti => (gname, ti)) subs) with
    | Some e => Some (entry_result th lang g n e)
    | None => dict_get r n
    end.
Proof.
  induction subs as [|ti subs IH]; intros r r' H Hnd; cbn [fold_left] in H.
  - injection H as <-. split; [exact Hnd|]. intro n. reflexivity.
  - unfold add_group_trait at 2 in H. destruct (ti_name ti) as [m|] eqn:Eti.
    + destruct (IH _ _ H (nodup_setitem _ _ _ Hnd)) as [H1 H2].
      split; [exact H1|]. intro n. rewrite H2. cbn [map]. rewrite last_named_cons.
      destruct (last_named n (map (fun ti0 => (gname, ti0)) subs)); [reflexivity|].
      cbn [snd]. rewrite Eti. rewrite dict_get_setitem.
      destruct (String.eqb m n) eqn:E; [|reflexivity].
      apply String.eqb_eq in E. subst m. reflexivity.
    + rewrite (HeapFacts.fold_none _ subs) in H; [discriminate|].
      intro x. reflexivity.
Qed.

Lemma taxonomy_entries_cons (grp : group) (tg : list group) :
  taxonomy_entries (grp :: tg) =
  map (fun ti => (get_default "Unknown" (group_name grp), ti))
    (flat_map node_trait_infos (group_traits grp)) ++ taxonomy_entries tg.
Proof. reflexivity. Qed.

(** X8: for a schema with a taxonomy, when [calculate_score] returns, the
    result has distinct keys, and the entry under a name [n] is the result
    of the LAST trait definition named [n] in traversal order (a later
    subtrait or group silently replaces an earlier one), computed by
    [_calculate_trait_score] with that definition and carrying its group's
    name; a name no definition carries is absent. *)
Theorem taxonomy_calculate_score (self : scorer) (g : genotype_map)
    (tg : list group) (res : list (string * trait_result))
    (Htax : taxonomy (sc_schema self) = Some tg)
    (Hres : calculate_score self g = Some res) :
  NoDup (map fst res) /\
  forall n, dict_get res n =
    option_map (entry_result (thresholds self) (language self) g n)
      (last_named n (taxonomy_entries tg)).
Proof.
  unfold calculate_score in Hres. cbv zeta in Hres. rewrite Htax in Hres.
  set (th := thresholds self) in *. set (lang := language self) in *.
  assert (Hgen : forall tg r res,
    fold_left (fun acc grp => match acc, process_group th lang grp g with
                              | Some r, Some gr => Some (py_update r gr)
                              | _, _ => None
                              end) tg (Some r) = Some res ->
    NoDup (map fst r) ->
    NoDup (map fst res) /\
    forall n, dict_get res n =
      match last_named n (taxonomy_entries tg) with
      | Some e => Some (entry_result th lang g n e)
      | None => dict_get r n
      end).
  { clear Hres Htax tg res.
    induction tg as [|grp tg IH]; intros r res H Hnd; cbn [fold_left] in H.
    - injection H as <-. split; [exact Hnd|]. intro n. reflexivity.
    - destruct (process_group th lang grp g) as [gr|] eqn:Eg.
      + rewrite process_group_fold in Eg.
        destruct (fold_add_group_trait _ _ _ _ _ [] gr Eg (NoDup_nil _)) as [Hg1 Hg2].
        destruct (py_update_spec gr r Hg1 Hnd) as [Hu1 Hu2].
        destruct (IH _ _ H Hu1) as [H1 H2].
        split; [exact H1|]. intro n. rewrite H2, taxonomy_entries_cons, last_named_app.
        destruct (last_named n (taxonomy_entries tg)); [reflexivity|].
        rewrite Hu2, Hg2. cbn [dict_get].
        destruct (last_named n _); reflexivity.
      + rewrite (HeapFacts.fold_none _ tg) in H; [discriminate|].
        intro x. reflexivity. }
  destruct (Hgen tg [] res Hres (NoDup_nil _)) as [H1 H2].
  split; [exact H1|]. intro n. rewrite H2.
  destruct (last_named n (taxonomy_entries tg)); reflexivity.
Qed.

Lemma taxonomy_calculate_score_witness :
  let res := match calculate_score tax_scorer [("rs1", "AG")] with
             | Some r => r | None => [] end in
  taxonomy (sc_schema tax_scorer) = Some (get_default [] (taxonomy (sc_schema tax_scorer))) /\
  calculate_score tax_scorer [("rs1", "AG")] = Some res /\
  NoDup (map fst res) /\
  forall n, dict_get res n =
    option_map (entry_result (thresholds tax_scorer) (language tax_scorer) [("rs1", "AG")] n)
      (last_named n (taxonomy_entries (get_default [] (taxonomy (sc_schema tax_scorer))))).
Proof.
  intro res.
  assert (H1 : taxonomy (sc_schema tax_scorer) =
               Some (get_default [] (taxonomy (sc_schema tax_scorer)))) by reflexivity.
  assert (H2 : calculate_score tax_scorer [("rs1", "AG")] = Some res) by (vm_compute; reflexivity).
  split; [exact H1|]. split; [exact H2|].
  exact (taxonomy_calculate_score tax_scorer [("rs1", "AG")] _ res H1 H2).
Defined.

(** ** Which genotypes [calculate_score] reads *)

Lemma variant_step_local (g g' : genotype_map) (acc : Q * Q * list detail) (v : variant) :
  genotype_get g (rsid v) = genotype_get g' (rsid v) ->
  variant_step g acc v = variant_step g' acc v.
Proof.
  intro H. destruct acc as [[sc mx] ds]. unfold variant_step. rewrite H. reflexivity.
Qed.

Lemma trait_score_local th lang n (ti : trait_info) (g g' : genotype_map) :
  (forall v, In v (get_default [] (variants ti)) ->
     genotype_get g (rsid v) = genotype_get g' (rsid v)) ->
  calculate_trait_score th lang n ti g = calculate_trait_score th lang n ti g'.
Proof.
  intro H. unfold calculate_trait_score, score_variants.
  rewrite (fold_left_ext_in (variant_step g) (variant_step g')
             (get_default [] (variants ti))
             (fun acc x Hx => variant_step_local g g' acc x (H x Hx))).
  reflexivity.
Qed.

(** X9: [calculate_score] reads the genotype map only at the rsids of the
    variants of the traits it scores: two maps that agree there (whatever
    other rsids they hold) give the same result, or both raise. *)
Theorem calculate_score_local (self : scorer) (g g' : genotype_map)
    (Hagree : Forall (fun v => genotype_get g (rsid v) = genotype_get g' (rsid v))
                (schema_variants (sc_schema self))) :
  calculate_score self g = calculate_score self g'.
Proof.
  rewrite Forall_forall in Hagree. unfold schema_variants in Hagree.
  assert (Hti : forall ti n, In ti (schema_trait_infos (sc_schema self)) ->
            calculate_trait_score (thresholds self) (language self) n ti g =
            calculate_trait_score (thresholds self) (language self) n ti g').
  { intros ti n Hin. apply trait_score_local. intros v Hv. apply Hagree.
    apply in_flat_map. exists ti. split; assumption. }
  unfold schema_trait_infos in Hti. unfold calculate_score. cbv zeta.
  destruct (taxonomy (sc_schema self)) as [tg|].
  - apply fold_left_ext_in. intros acc grp Hgrp.
    assert (Hpg : process_group (thresholds self) (language self) grp g =
                  process_group (thresholds self) (language self) grp g').
    { rewrite !process_group_fold. apply fold_left_ext_in. intros acc' ti Hin.
      unfold add_group_trait. destruct acc' as [r|]; [|reflexivity].
      destruct (ti_name ti) as [m|]; [|reflexivity].
      rewrite (Hti ti m); [reflexivity|].
      apply in_flat_map. exists grp. split; assumption. }
    rewrite Hpg. reflexivity.
  - f_equal. apply fold_left_ext_in. intros acc nt Hin.
    rewrite (Hti (snd nt) (fst nt)); [reflexivity|].
    apply in_map. exact Hin.
Qed.

Lemma calculate_score_local_witness :
  Forall (fun v => genotype_get [("rs1", "AG")] (rsid v) =
                   genotype_get [("rs5", "TT"); ("rs1", "AG")] (rsid v))
    (schema_variants (sc_schema two_trait_scorer)) /\
  calculate_score two_trait_scorer [("rs1", "AG")] =
  calculate_score two_trait_scorer [("rs5", "TT"); ("rs1", "AG")].
Proof.
  assert (H : Forall (fun v => genotype_get [("rs1", "AG")] (rsid v) =
                               genotype_get [("rs5", "TT"); ("rs1", "AG")] (rsid v))
                (schema_variants (sc_schema two_trait_scorer)))
    by (vm_compute; repeat constructor).
  split; [exact H|].
  exact (calculate_score_local two_trait_scorer _ _ H).
Defined.

(** ** Rounding and the consumers of the percentage *)

Lemma round_half_even_ge (x : Q) :
  (Qnum x / Zpos (Qden x) <= round_half_even x)%Z.
Proof.
  unfold round_half_even. cbv zeta.
  destruct (Z.compare _ _); [destruct (Z.even _)|..]; lia.
Qed.

Lemma py_round2_ge (k : Z) (x : Q) : inject_Z k <= x -> inject_Z k <= py_round x 2.
Proof.
  destruct x as [n d]. intro H. unfold py_round.
  change (Pos.of_nat (Nat.pow 10 2)) with 100%positive.
  rewrite Qred_correct.
  pose proof (round_half_even_ge ((n # d) * (Zpos 100 # 1))) as Hr.
  cbn [Qnum Qden Qmult] in Hr.
  unfold Qle, inject_Z in *. cbn [Qnum Qden] in *.
  assert (Hd : (100 * k <= (n * 100) / Zpos (d * 1))%Z).
  { apply Z.div_le_lower_bound; [lia|]. rewrite Pos.mul_1_r. nia. }
  lia.
Qed.

Lemma py_round2_lt (k : Z) (x : Q) : py_round x 2 < inject_Z k -> x < inject_Z k.
Proof.
  intro H. apply Qnot_le_lt. intro Hle. apply (Qlt_not_le _ _ H).
  apply py_round2_ge. exact Hle.
Qed.

Section TraitPercentage.
Variables (th : Q * Q) (lang : string) (g : genotype_map).

(** A trait result whose percentage and classification come from one
    unrounded percentage, as [_calculate_trait_score] computes them. *)
Definition from_raw (r : trait_result) : Prop :=
  exists raw, percentage r = py_round raw 2 /\ classification r = classify_risk th lang raw.

Lemma trait_from_raw (ti : trait_info) : trait_ok from_raw th lang g ti.
Proof.
  intro n. unfold calculate_trait_score.
  destruct (score_variants g (get_default [] (variants ti))) as [[sc mx] ds].
  split; [|intro gn]; exists (raw_percentage sc mx); split; reflexivity.
Qed.
End TraitPercentage.

(** X10: when the scorer's high threshold is a whole number [k], every
    result of [calculate_score] classified with the high label is kept by
    [get_high_risk_traits results k]: rounding the percentage to two
    decimals never takes it below [k]. *)
Theorem high_risk_traits_keep_high (self : scorer) (g : genotype_map) (k : Z)
    (res : list (string * trait_result))
    (Hhi : snd (thresholds self) = inject_Z k)
    (Hres : calculate_score self g = Some res) :
  Forall (fun kv => classification (snd kv) = risk_label (language self) RHigh ->
                    In kv (get_high_risk_traits res (inject_Z k))) res.
Proof.
  pose proof (calculate_score_all (from_raw (thresholds self) (language self)) self g res
                (fun ti _ => trait_from_raw _ _ g ti) Hres) as Hall.
  rewrite Forall_forall in *. intros kv Hin Hc.
  destruct (Hall kv Hin) as [raw [Hp Hcl]].
  rewrite Hcl in Hc. unfold classify_risk in Hc. apply risk_label_inj in Hc.
  unfold classify_level in Hc.
  destruct (qltb raw (fst (thresholds self))); [discriminate|].
  destruct (qltb raw (snd (thresholds self))) eqn:E; [discriminate|].
  apply qltb_false in E. rewrite Hhi in E.
  unfold get_high_risk_traits. apply filter_In. split; [exact Hin|].
  rewrite Hp. apply Qle_bool_iff. apply py_round2_ge. exact E.
Qed.

Lemma high_risk_traits_keep_high_witness :
  let res := match calculate_score two_trait_scorer [("rs1", "AA")] with
             | Some r => r | None => [] end in
  snd (thresholds two_trait_scorer) = inject_Z 66 /\
  calculate_score two_trait_scorer [("rs1", "AA")] = Some res /\
  Forall (fun kv => classification (snd kv) = risk_label (language two_trait_scorer) RHigh ->
                    In kv (get_high_risk_traits res (inject_Z 66))) res.
Proof.
  intro res.
  assert (H1 : snd (thresholds two_trait_scorer) = inject_Z 66) by reflexivity.
  assert (H2 : calculate_score two_trait_scorer [("rs1", "AA")] = Some res)
    by (vm_compute; reflexivity).
  split; [exact H1|]. split; [exact H2|].
  exact (high_risk_traits_keep_high two_trait_scorer [("rs1", "AA")] 66 res H1 H2).
Defined.

(** X11: with the default thresholds [[33, 66]], the chart colour of
    [Visualizer._get_color_for_percentage], computed from the rounded
    percentage, is red for every trait classified with the high label, and
    a trait coloured green is always classified with the low label. *)
Theorem color_matches_default_classification (lang n : string) (ti : trait_info)
    (g : genotype_map) :
  let r := calculate_trait_score default_thresholds lang n ti g in
  (classification r = risk_label lang RHigh -> get_color_for_percentage (percentage r) = "#e74c3c") /\
  (get_color_for_percentage (percentage r) = "#2ecc71" -> classification r = risk_label lang RLow).
Proof.
  cbv zeta. unfold calculate_trait_score.
  destruct (score_variants g (get_default [] (variants ti))) as [[sc mx] ds].
  cbn [classification percentage]. set (raw := raw_percentage sc mx).
  unfold classify_risk, classify_level, default_thresholds. cbn [fst snd].
  split.
  - intro Hc. apply risk_label_inj in Hc.
    destruct (qltb raw (33 # 1)); [discriminate|].
    destruct (qltb raw (66 # 1)) eqn:E; [discriminate|].
    apply qltb_false in E. pose proof (py_round2_ge 66 raw E) as Hr.
    unfold get_color_for_percentage.
    assert (E1 : qltb (py_round raw 2) 33 = false)
      by (apply qltb_false; change (inject_Z 66) with (66 # 1) in Hr; lra).
    assert (E2 : qltb (py_round raw 2) 66 = false)
      by (apply qltb_false; exact Hr).
    rewrite E1, E2. reflexivity.
  - intro Hcol. unfold get_color_for_percentage in Hcol.
    destruct (qltb (py_round raw 2) 33) eqn:E1;
      [|destruct (qltb (py_round raw 2) 66); discriminate].
    apply qltb_spec in E1. apply (py_round2_lt 33) in E1.
    assert (E : qltb raw (33 # 1) = true) by (apply qltb_spec; exact E1).
    rewrite E. reflexivity.
Qed.

(** ** Domains in the results and in the schema *)

Lemma fold_traits_by_domain (d : string) (ts : list (string * trait_info)) :
  forall acc, NoDup (map fst acc ++ map fst ts) ->
  fold_left (fun res nt => match domain (snd nt) with
                           | Some m => if String.eqb m d then py_setitem res (fst nt) (snd nt)
                                       else res
                           | None => res
                           end) ts acc =
  acc ++ filter (fun nt => match domain (snd nt) with
                           | Some m => String.eqb m d
                           | None => false
                           end) ts.
Proof.
  induction ts as [|[k ti] ts IH]; intros acc Hnd; cbn [fold_left filter fst snd].
  - rewrite app_nil_r. reflexivity.
  - cbn [map fst] in Hnd.
    assert (Hk : ~ In k (map fst acc)).
    { intro Hin. apply NoDup_remove_2 in Hnd. apply Hnd. apply in_or_app. left. exact Hin. }
    assert (Hrest : NoDup (map fst acc ++ map fst ts)) by (apply NoDup_remove_1 in Hnd; exact Hnd).
    destruct (domain ti) as [m|]; [destruct (String.eqb m d)|].
    + rewrite py_setitem_fresh by exact Hk. rewrite IH.
      * rewrite <- app_assoc. reflexivity.
      * rewrite map_app, <- app_assoc. exact Hnd.
    + apply IH. exact Hrest.
    + apply IH. exact Hrest.
Qed.

Lemma filter_map_comm {A B} (f : B -> bool) (h : A -> B) (l : list A) :
  filter f (map h l) = map h (filter (fun x => f (h x)) l).
Proof.
  induction l as [|x l IH]; cbn [map filter]; [reflexivity|].
  destruct (f (h x)); cbn [map]; rewrite IH; reflexivity.
Qed.

(** X12: for a flat schema with distinct trait names and a domain other than
    ['Unknown'], [filter_results_by_domain] on the results of
    [calculate_score] and [SchemaHandler.get_traits_by_domain] on the schema
    name the same traits in the same order. (For ['Unknown'] they differ:
    a result takes the domain ['Unknown'] when its trait has none, which the
    schema lookup does not match.) *)
Theorem domain_filter_matches_schema (self : scorer) (g : genotype_map) (d : string)
    (Hflat : taxonomy (sc_schema self) = None)
    (Hkeys : NoDup (map fst (traits (sc_schema self))))
    (Hd : d <> "Unknown") :
  option_map (fun res => map fst (filter_results_by_domain res d)) (calculate_score self g) =
  Some (map fst (get_traits_by_domain (sc_schema self) d)).
Proof.
  rewrite (flat_result self g Hflat Hkeys). cbn [option_map]. f_equal.
  unfold get_traits_by_domain. rewrite (fold_traits_by_domain d _ [] Hkeys). cbn [app].
  unfold filter_results_by_domain. rewrite filter_map_comm, map_map. cbn [fst].
  clear Hkeys Hflat.
  induction (traits (sc_schema self)) as [|[k ti] ts IH]; cbn [filter map fst snd];
    [reflexivity|].
  assert (Hdom : tr_domain (calculate_trait_score (thresholds self) (language self) k ti g)
                 = get_default "Unknown" (domain ti)).
  { unfold calculate_trait_score.
    destruct (score_variants g (get_default [] (variants ti))) as [[sc mx] ds].
    reflexivity. }
  rewrite Hdom.
  destruct (domain ti) as [m|]; cbn [get_default].
  - destruct (String.eqb m d); cbn [map fst]; [f_equal|]; exact IH.
  - destruct (String.eqb "Unknown" d) eqn:E.
    + apply String.eqb_eq in E. exfalso. apply Hd. symmetry. exact E.
    + exact IH.
Qed.

Lemma domain_filter_matches_schema_witness :
  taxonomy (sc_schema two_trait_scorer) = None /\
  NoDup (map fst (traits (sc_schema two_trait_scorer))) /\
  "Nutrition" <> "Unknown" /\
  option_map (fun res => map fst (filter_results_by_domain res "Nutrition"))
    (calculate_score two_trait_scorer [("rs1", "AG")]) =
  Some (map fst (get_traits_by_domain (sc_schema two_trait_scorer) "Nutrition")).
Proof.
  assert (H1 : taxonomy (sc_schema two_trait_scorer) = None) by reflexivity.
  assert (H2 : NoDup (map fst (traits (sc_schema two_trait_scorer)))).
  { simpl. constructor; [simpl; intros [H|[]]; discriminate H|].
    constructor; [intros []|constructor]. }
  assert (H3 : "Nutrition" <> "Unknown") by discriminate.
  split; [exact H1|]. split; [exact H2|]. split; [exact H3|].
  exact (domain_filter_matches_schema two_trait_scorer [("rs1", "AG")] "Nutrition" H1 H2 H3).
Defined.

Lemma round_half_even_le (x : Q) (m : Z) :
  (Qnum x <= m * Zpos (Qden x))%Z -> (round_half_even x <= m)%Z.
Proof.
  intro H. unfold round_half_even. cbv zeta.
  set (a := Qnum x) in *. set (b := Zpos (Qden x)) in *.
  assert (Hb : (0 < b)%Z) by (unfold b; lia).
  pose proof (Z.div_mod a b ltac:(lia)) as Hdm.
  pose proof (Z.mod_pos_bound a b Hb) as Hr.
  assert (Hfl : (a / b <= m)%Z) by (apply Z.div_le_upper_bound; lia).
  set (q := (a / b)%Z) in *. set (r := (a mod b)%Z) in *.
  assert (Hq : (q < m \/ r = 0)%Z).
  { destruct (Z.lt_ge_cases q m) as [Hlt|Hge]; [left; exact Hlt|right].
    assert (b * m <= b * q)%Z by (apply Z.mul_le_mono_nonneg_l; lia). lia. }
  destruct (Z.compare_spec (2 * r) b); [destruct (Z.even q)|..]; lia.
Qed.

Lemma py_round2_le (k : Z) (x : Q) : x <= inject_Z k -> py_round x 2 <= inject_Z k.
Proof.
  destruct x as [n d]. intro H. unfold py_round.
  change (Pos.of_nat (Nat.pow 10 2)) with 100%positive.
  rewrite Qred_correct.
  pose proof (round_half_even_le ((n # d) * (Zpos 100 # 1)) (100 * k)) as Hr.
  cbn [Qnum Qden Qmult] in Hr.
  unfold Qle, inject_Z in *. cbn [Qnum Qden] in *.
  rewrite Pos.mul_1_r in Hr.
  assert (Hle : (n * 100 <= 100 * k * Zpos d)%Z) by lia.
  specialize (Hr Hle). lia.
Qed.

(** X13: with the default thresholds [[33, 66]], the risk buckets of the
    summary of [create_comprehensive_json] (low: percentage <= 33, high:
    percentage > 66, on the rounded percentage) agree with the classification
    in one direction: a trait classified with the low label is counted as
    low, and a trait counted as high is classified with the high label. *)
Theorem summary_buckets_match_default_classification (lang n : string)
    (ti : trait_info) (g : genotype_map) :
  let r := calculate_trait_score default_thresholds lang n ti g in
  (classification r = risk_label lang RLow -> Qle_bool (percentage r) 33 = true) /\
  (qltb 66 (percentage r) = true -> classification r = risk_label lang RHigh).
Proof.
  cbv zeta. unfold calculate_trait_score.
  destruct (score_variants g (get_default [] (variants ti))) as [[sc mx] ds].
  cbn [classification percentage]. set (raw := raw_percentage sc mx).
  unfold classify_risk, classify_level, default_thresholds. cbn [fst snd].
  split.
  - intro Hc. apply risk_label_inj in Hc.
    destruct (qltb raw (33 # 1)) eqn:E; [|destruct (qltb raw (66 # 1)); discriminate].
    apply qltb_spec in E. apply Qle_bool_iff.
    apply (py_round2_le 33). apply Qlt_le_weak. exact E.
  - intro Hp. apply qltb_spec in Hp.
    assert (Hraw : 66 < raw).
    { apply Qnot_le_lt. intro Hle. apply (py_round2_le 66) in Hle.
      change (inject_Z 66) with (66 # 1) in Hle. lra. }
    assert (E1 : qltb raw (33 # 1) = false) by (apply qltb_false; lra).
    assert (E2 : qltb raw (66 # 1) = false) by (apply qltb_false; lra).
    rewrite E1, E2. reflexivity.
Qed.

